(** * Pipeline parser: interpolation and normalisation of pipeline documents

    A shallow embedding of [agent/pipeline_parser.go] (package [agent]):
    [PipelineParser.Parse], [parseWithEnv], [mapSliceItem],
    [interpolateEnvBlock], [formatYAMLError], [interpolate] and
    [interpolateRecursive], followed by the properties of the
    specification that concern them. *)

From Stdlib Require Import Ascii.
From stdpp Require Import base gmap strings list pretty.

Set Warnings "-register-all".
Local Open Scope string_scope.
Local Open Scope list_scope.

(** ** Errors and results *)

(** A Go [error] is represented by its message, [err.Error()]. *)
Definition error := string.

(** The outcome of a Go call returning [(T, error)] in which the value is
    only meaningful when the error is nil. *)
Inductive res (A : Type) : Type :=
| Ok (a : A)
| Err (e : error).
Arguments Ok {A} a.
Arguments Err {A} e.

(** Sequencing with early return of the first error:
    [x, err := f(); if err != nil { return err }; ...]. *)
#[global] Instance res_bind : MBind res := fun A B k r =>
  match r with
  | Ok a => k a
  | Err e => Err e
  end.

(** ** Document nodes *)

(** The bit pattern of a [float64] is that of a NaN: exponent all ones,
    fraction not zero. *)
Definition float64_isNaN (bits : Z) : bool :=
  (Z.land (Z.shiftr bits 52) 2047 =? 2047)%Z
  && negb (Z.land bits 4503599627370495 =? 0)%Z.

(** [==] on two [float64] that are not NaN, by their bit patterns: the
    same pattern, or two zeros of either sign. *)
Definition float64_eqb (x y : Z) : bool :=
  (x =? y)%Z
  || ((Z.land x 9223372036854775807 =? 0)%Z
      && (Z.land y 9223372036854775807 =? 0)%Z).

(** The keys of a native map [map[interface{}]interface{}]: the hashable
    scalars the decoder accepts as keys. A float key is never NaN: for a
    NaN key [MapIndex] finds nothing, and the walk panics when it takes
    the type of the zero Value it is given; a map with such a key is not
    a document of this model. *)
Inductive mapKey : Type :=
| KNil
| KString (s : string)
| KInt (n : Z)
| KFloat (bits : Z) (notNaN : float64_isNaN bits = false)
| KBool (b : bool).

(** The dynamic types the YAML decoder stores in an [interface{}]:
    the nil interface, [string], an integer ([int] within the range of
    [int64], [uint64] above it), [float64] (kept as its IEEE-754 bit
    pattern, never computed on), [bool], [[]interface{}],
    [yaml.MapSlice] (a slice of [yaml.MapItem{Key, Value interface{}}], the
    order-preserving map) and the native [map[interface{}]interface{}].
    A native map is listed in the order in which [MapKeys] enumerates it,
    each key with the value [MapIndex] returns for it; a list in which a
    key occurs twice stands for no Go map. *)
Inductive value : Type :=
| VNil
| VString (s : string)
| VInt (n : Z)
| VFloat (bits : Z)
| VBool (b : bool)
| VSlice (l : list value)
| VMapSlice (l : list (value * value))
| VMap (l : list (mapKey * value)).

(** [yaml.MapItem] with its two fields. *)
Abbreviation MapItem := (value * value)%type.
Definition Key (item : MapItem) : value := fst item.
Definition Value (item : MapItem) : value := snd item.

(** Induction over documents that also reaches the nodes stored in slices
    and in map entries. *)
Section value_induction.
Variable P : value -> Prop.
Hypothesis HNil : P VNil.
Hypothesis HString : forall s, P (VString s).
Hypothesis HInt : forall n, P (VInt n).
Hypothesis HFloat : forall b, P (VFloat b).
Hypothesis HBool : forall b, P (VBool b).
Hypothesis HSlice : forall l, Forall P l -> P (VSlice l).
Hypothesis HMapSlice :
  forall l, Forall (fun kv => P (fst kv) /\ P (snd kv)) l -> P (VMapSlice l).
Hypothesis HMap :
  forall l : list (mapKey * value),
    Forall (fun kv => P (snd kv)) l -> P (VMap l).

Fixpoint value_nested_ind (v : value) : P v :=
  match v with
  | VNil => HNil
  | VString s => HString s
  | VInt n => HInt n
  | VFloat b => HFloat b
  | VBool b => HBool b
  | VSlice l =>
      HSlice l
        ((fix go (l : list value) : Forall P l :=
            match l with
            | [] => List.Forall_nil P
            | x :: r => List.Forall_cons P x r (value_nested_ind x) (go r)
            end) l)
  | VMapSlice l =>
      HMapSlice l
        ((fix go (l : list (value * value))
            : Forall (fun kv => P (fst kv) /\ P (snd kv)) l :=
            match l with
            | [] => List.Forall_nil _
            | kv :: r =>
                List.Forall_cons _ kv r
                  (conj (value_nested_ind (fst kv)) (value_nested_ind (snd kv)))
                  (go r)
            end) l)
  | VMap l =>
      HMap l
        ((fix go (l : list (mapKey * value))
            : Forall (fun kv => P (snd kv)) l :=
            match l with
            | [] => List.Forall_nil _
            | kv :: r =>
                List.Forall_cons _ kv r (value_nested_ind (snd kv)) (go r)
            end) l)
  end.
End value_induction.

(** [%T] of a value held in an [interface{}]. *)
Definition typeName (v : value) : string :=
  match v with
  | VNil => "<nil>"
  | VString _ => "string"
  | VInt n => if (n <=? 9223372036854775807)%Z then "int" else "uint64"
  | VFloat _ => "float64"
  | VBool _ => "bool"
  | VSlice _ => "[]interface {}"
  | VMapSlice _ => "yaml.MapSlice"
  | VMap _ => "map[interface {}]interface {}"
  end.

(** Equality of two native-map keys, as the Go map has it: the same
    dynamic type and [==] on the values. *)
Definition keyEqb (a b : mapKey) : bool :=
  match a, b with
  | KNil, KNil => true
  | KString s, KString t => String.eqb s t
  | KInt n, KInt m => Z.eqb n m
  | KFloat x _, KFloat y _ => float64_eqb x y
  | KBool x, KBool y => Bool.eqb x y
  | _, _ => false
  end.

(** [reflect.Value.SetMapIndex] on a native map: overwrite the entry of an
    equal key, else add an entry. *)
Fixpoint SetMapIndex (m : list (mapKey * value)) (k : mapKey) (v : value)
  : list (mapKey * value) :=
  match m with
  | [] => [(k, v)]
  | (k', v') :: r =>
      if keyEqb k' k then (k', v) :: r else (k', v') :: SetMapIndex r k v
  end.

(** ** Environment *)

(** Modelled from the spec: package [env] ([env.Environment], [Get] and
    [Set]) is not among the sources. The specification describes it as a
    string-to-string mapping with unique keys, [Get(key)] returning the value
    or absent and [Set(key, value)] overwriting. *)
Abbreviation Environment := (gmap string string).

Definition env_Get (e : Environment) (key : string) : option string := e !! key.
Definition env_Set (key val : string) (e : Environment) : Environment :=
  <[key := val]> e.

(** [strings.TrimPrefix]. *)
Definition TrimPrefix (s pre : string) : string :=
  if String.prefix pre s
  then String.substring (String.length pre) (String.length s - String.length pre) s
  else s.

(** [formatYAMLError], on the error's message. *)
Definition formatYAMLError (err : error) : error := TrimPrefix err "yaml: ".

Record PipelineParser : Type := mkPipelineParser {
  Env : option Environment;
  Filename : string;
  Pipeline : string;
  NoInterpolation : bool
}.

(** ** A concrete evaluator and codec for worked examples *)

(** Modelled from the spec: the template evaluator (package
    [interpolate]) is not among the sources. The properties below hold for
    every evaluator; the worked examples run this one, which replaces every
    [${NAME}] by the value of [NAME] in the Environment and reports an
    undefined variable, or a reference that is not closed, as an error.
    [cur] holds the name being read, if any. *)
Fixpoint expand (env : Environment) (cur : option string) (s : string)
  : res string :=
  match cur, s with
  | None, EmptyString => Ok EmptyString
  | Some _, EmptyString => Err "unterminated variable reference"
  | None, String "$"%char (String "{"%char rest) => expand env (Some EmptyString) rest
  | None, String c rest => r ← expand env None rest; Ok (String c r)
  | Some name, String "}"%char rest =>
      match env_Get env name with
      | Some v => r ← expand env None rest; Ok (v +:+ r)
      | None => Err ("undefined variable " +:+ name)
      end
  | Some name, String c rest =>
      expand env (Some (name +:+ String c EmptyString)) rest
  end.

Definition demoInterpolate (env : Environment) (s : string) : res string :=
  expand env None s.

(** The documents of the worked examples. *)
Definition doc_undefined : string := "- ${UNDEFINED}".
Definition doc_steps : string := "- command: echo ${FOO}".
Definition doc_env_scalar : string := "env: not-a-map".
Definition doc_env_then_fail : string := "env: {FOO: bar}
steps: ${UNDEFINED}".
Definition doc_env_chain : string := "env: {A: one, B: '${A}-two'}
steps: ${B}".
Definition doc_garbage : string := "steps: %blah%".

(** Modelled from the spec: the markup codec (packages [yaml] and
    [yamltojson]) is not among the sources. The properties below hold for
    every codec; the worked examples run these decoders, which know the
    documents above and reject every other input. Inside a sequence a map
    is decoded as a native map, inside a [yaml.MapSlice] as a
    [yaml.MapSlice]. *)
Definition demoUnmarshalSlice (b : string) : res (list value) :=
  if String.eqb b doc_undefined then Ok [VString "${UNDEFINED}"]
  else if String.eqb b doc_steps
  then Ok [VMap [(KString "command", VString "echo ${FOO}")]]
  else if String.eqb b doc_garbage
  then Err "yaml: found character that cannot start any token"
  else Err "yaml: cannot unmarshal !!map into []interface {}".

Definition demoUnmarshalMapSlice (b : string) : res (list MapItem) :=
  if String.eqb b doc_env_scalar
  then Ok [(VString "env", VString "not-a-map")]
  else if String.eqb b doc_env_then_fail
  then Ok [(VString "env", VMapSlice [(VString "FOO", VString "bar")]);
           (VString "steps", VString "${UNDEFINED}")]
  else if String.eqb b doc_env_chain
  then Ok [(VString "env", VMapSlice [(VString "A", VString "one");
                                      (VString "B", VString "${A}-two")]);
           (VString "steps", VString "${B}")]
  else if String.eqb b doc_garbage
  then Err "yaml: found character that cannot start any token"
  else Err "yaml: cannot unmarshal !!seq into yaml.MapSlice".

(** A flow-style rendering of a document; strings are single-quoted and a
    float is shown by its bit pattern. *)
Definition demoRenderKey (k : mapKey) : string :=
  match k with
  | KNil => "null"
  | KString s => "'" +:+ s +:+ "'"
  | KInt n => pretty n
  | KFloat bits _ => "!!float " +:+ pretty bits
  | KBool b => if b then "true" else "false"
  end.

Fixpoint demoRender (v : value) : string :=
  match v with
  | VNil => "null"
  | VString s => "'" +:+ s +:+ "'"
  | VInt n => pretty n
  | VFloat bits => "!!float " +:+ pretty bits
  | VBool b => if b then "true" else "false"
  | VSlice l =>
      "[" +:+ (fix elems (l : list value) : string :=
                 match l with
                 | [] => EmptyString
                 | x :: r => demoRender x +:+ ", " +:+ elems r
                 end) l +:+ "]"
  | VMapSlice l =>
      "{" +:+ (fix items (l : list MapItem) : string :=
                 match l with
                 | [] => EmptyString
                 | kv :: r =>
                     demoRender (fst kv) +:+ ": " +:+ demoRender (snd kv)
                     +:+ ", " +:+ items r
                 end) l +:+ "}"
  | VMap l =>
      "{" +:+ (fix entries (l : list (mapKey * value)) : string :=
                 match l with
                 | [] => EmptyString
                 | kv :: r =>
                     demoRenderKey (fst kv) +:+ ": " +:+ demoRender (snd kv)
                     +:+ ", " +:+ entries r
                 end) l +:+ "}"
  end.

Definition demoMarshal (v : value) : res string := Ok (demoRender v).

(** The canonical tree of the examples is the text it was decoded from. *)
Definition demoUnmarshalAsStringMap (b : string) : res (option string) :=
  if String.eqb b doc_garbage
  then Err "yaml: found character that cannot start any token"
  else Ok (Some b).

(** [%v] of the examples: scalars as [fmt] prints them, a composite by its
    rendering. *)
Definition demoFmtV (v : value) : string :=
  match v with
  | VNil => "<nil>"
  | VString s => s
  | VInt n => pretty n
  | VBool b => if b then "true" else "false"
  | _ => demoRender v
  end.

(** ** Shapes *)

Section forall2b.
Context {A B : Type}.
Variable f : A -> B -> bool.

(** Two lists of the same length whose elements are related pairwise. *)
Fixpoint forall2b (l : list A) (l' : list B) : bool :=
  match l, l' with
  | [], [] => true
  | x :: r, x' :: r' => f x x' && forall2b r r'
  | _, _ => false
  end.
End forall2b.

(** Two keys of native maps of identical shape: equal, or two strings. *)
Definition sameKeyShape (k k' : mapKey) : bool :=
  match k, k' with
  | KNil, KNil => true
  | KString _, KString _ => true
  | KInt n, KInt m => Z.eqb n m
  | KFloat x _, KFloat y _ => Z.eqb x y
  | KBool x, KBool y => Bool.eqb x y
  | _, _ => false
  end.

(** Two documents of identical shape: the same variant at every node, the
    same length of every sequence, the same entries of every map in the
    same order; non-string scalars are equal and strings are free, in
    values and in keys. *)
Fixpoint sameShape (a b : value) : bool :=
  match a, b with
  | VNil, VNil => true
  | VString _, VString _ => true
  | VInt n, VInt m => Z.eqb n m
  | VFloat x, VFloat y => Z.eqb x y
  | VBool x, VBool y => Bool.eqb x y
  | VSlice l, VSlice l' => forall2b sameShape l l'
  | VMapSlice l, VMapSlice l' =>
      forall2b (fun kv kv' => sameShape (fst kv) (fst kv')
                              && sameShape (snd kv) (snd kv')) l l'
  | VMap l, VMap l' =>
      forall2b (fun kv kv' => sameKeyShape (fst kv) (fst kv')
                              && sameShape (snd kv) (snd kv')) l l'
  | _, _ => false
  end.

(** No key of the list is equal to a later one. *)
Fixpoint keysDistinctb (ks : list mapKey) : bool :=
  match ks with
  | [] => true
  | k :: r => forallb (fun k' => negb (keyEqb k k')) r && keysDistinctb r
  end.

(** Sequences and maps, as opposed to scalars and nil. *)
Definition isComposite (v : value) : bool :=
  match v with
  | VSlice _ | VMapSlice _ | VMap _ => true
  | _ => false
  end.

(** A document all of whose maps are order-preserving ones, as decoded
    from a map-shaped input. *)
Fixpoint orderedOnly (v : value) : bool :=
  match v with
  | VSlice l => forallb orderedOnly l
  | VMapSlice l => forallb (fun kv => orderedOnly (fst kv) && orderedOnly (snd kv)) l
  | VMap _ => false
  | _ => true
  end.

(** The templates of a document, in the order in which the walk meets
    them: the strings of the elements of a sequence; for an item of an
    order-preserving map those of its key, then those of its value; for an
    entry of a native map those of its value. *)
Fixpoint stringsOf (v : value) : list string :=
  match v with
  | VString s => [s]
  | VSlice l => List.flat_map stringsOf l
  | VMapSlice l =>
      List.flat_map (fun kv => stringsOf (fst kv) ++ stringsOf (snd kv)) l
  | VMap l => List.flat_map (fun kv => stringsOf (snd kv)) l
  | _ => []
  end.

(** Every native map of the document has pairwise distinct keys, as a Go
    map has. *)
Fixpoint distinctKeys (v : value) : bool :=
  match v with
  | VSlice l => forallb distinctKeys l
  | VMapSlice l =>
      forallb (fun kv => distinctKeys (fst kv) && distinctKeys (snd kv)) l
  | VMap l =>
      keysDistinctb (map fst l) && forallb (fun kv => distinctKeys (snd kv)) l
  | _ => true
  end.

(** The kinds of [reflect] that the walk tells apart. *)
Inductive Kind : Type :=
| KindPtr | KindInterface | KindStruct | KindSlice | KindMap | KindString
| KindOther.

(** [key.Kind()] for a [key] of [original.MapKeys()]. [MapKeys] hands out
    Values of the key type of the map, and the key type of a
    [map[interface{}]interface{}] is [interface{}]: the kind of such a
    Value is [Interface], whatever the key holds. *)
Definition keyKind (key : mapKey) : Kind := KindInterface.

(** [key.Interface().(string)], for a key that holds a string; the walk
    asks for it only under [key.Kind() == reflect.String]. *)
Definition keyString (key : mapKey) : string :=
  match key with
  | KString s => s
  | _ => EmptyString
  end.

(** ** The collaborators of the parser

    The packages [Parse] calls into and that are not part of it: the
    template evaluator, the YAML codec with its three entry points, the
    canonical string-keyed tree, the process environment and [fmt]. *)
Class Collaborators : Type := {
  (** [interpolate.Interpolate(env, str)]. *)
  Interpolate : Environment -> string -> res string;
  (** [yaml.Unmarshal(bytes, &pipelineAsSlice)], into a [[]interface{}]. *)
  yamlUnmarshalSlice : string -> res (list value);
  (** [yaml.Unmarshal(bytes, &pipeline)], into a [yaml.MapSlice]. *)
  yamlUnmarshalMapSlice : string -> res (list MapItem);
  (** [yaml.Marshal]. *)
  yamlMarshal : value -> res string;
  (** The canonical tree and [yamltojson.UnmarshalAsStringMap]; [None] is
      the nil [interface{}]. *)
  Canonical : Type;
  UnmarshalAsStringMap : string -> res (option Canonical);
  (** [env.FromSlice(os.Environ())]. *)
  osEnviron : Environment;
  (** [%v] of a value, as [fmt] renders it. *)
  fmtV : value -> string
}.

Section Parser.

Context {collab : Collaborators}.

(** [interpolateRecursive]: the result is the value left in [copy]; the
    parser's Environment is only read. On an error the partly filled copy
    is dropped, as [interpolate] does with it. The cases follow the kinds
    of the switch: a nil interface is left nil; the only struct of a
    decoded document is [yaml.MapItem], whose fields [Key] and [Value] are
    walked in that order; a decoded document holds no pointer. In the
    case of a native map the test [key.Kind() == reflect.String] is made
    on [keyKind], which is never [String]: every key is stored as it
    is. *)
Fixpoint interpolateRecursive (env : Environment) (original : value)
  : res value :=
  match original with
  | VSlice l =>
      l' ← (fix elems (l : list value) : res (list value) :=
               match l with
               | [] => Ok []
               | x :: r =>
                   x' ← interpolateRecursive env x;
                   r' ← elems r;
                   Ok (x' :: r')
               end) l;
      Ok (VSlice l')
  | VMapSlice l =>
      l' ← (fix items (l : list MapItem) : res (list MapItem) :=
               match l with
               | [] => Ok []
               | item :: r =>
                   k' ← interpolateRecursive env (fst item);
                   v' ← interpolateRecursive env (snd item);
                   r' ← items r;
                   Ok ((k', v') :: r')
               end) l;
      Ok (VMapSlice l')
  | VMap l =>
      m ← (fix keys (l : list (mapKey * value)) (copy : list (mapKey * value))
              : res (list (mapKey * value)) :=
              match l with
              | [] => Ok copy
              | kv :: r =>
                  copyValue ← interpolateRecursive env (snd kv);
                  match keyKind (fst kv) with
                  | KindString =>
                      interpolatedKey ← Interpolate env (keyString (fst kv));
                      keys r (SetMapIndex copy (KString interpolatedKey) copyValue)
                  | _ => keys r (SetMapIndex copy (fst kv) copyValue)
                  end
              end) l [];
      Ok (VMap m)
  | VString s =>
      interpolated ← Interpolate env s;
      Ok (VString interpolated)
  | _ => Ok original
  end.

(** [interpolate]: a nil object is returned as it is, any other one is
    copied by [interpolateRecursive]. *)
Definition interpolate (env : Environment) (obj : value) : res value :=
  match obj with
  | VNil => Ok VNil
  | _ => interpolateRecursive env obj
  end.

(** [mapSliceItem]: the first item whose key is the string [key]; [None]
    stands for the [false] of the Go pair. *)
Fixpoint mapSliceItem (key : string) (s : list MapItem) : option MapItem :=
  match s with
  | [] => None
  | item :: r =>
      match Key item with
      | VString k => if String.eqb k key then Some item else mapSliceItem key r
      | _ => mapSliceItem key r
      end
  end.

(** [interpolateEnvBlock]: the Environment behind [p.Env] is threaded
    through the loop; the result is its final state and the returned
    error ([None] for nil). *)
Fixpoint interpolateEnvBlock (envMap : list MapItem) (env : Environment)
  : Environment * option error :=
  match envMap with
  | [] => (env, None)
  | item :: r =>
      match Key item with
      | VString k =>
          match Value item with
          | VString tv =>
              match Interpolate env tv with
              | Err err => (env, Some err)
              | Ok interpolated =>
                  interpolateEnvBlock r (env_Set k interpolated env)
              end
          | _ => interpolateEnvBlock r env
          end
      | key =>
          (env, Some ("Unexpected type of " +:+ typeName key +:+
                      " for env block key " +:+ fmtV key))
      end
  end.

(** [%T] of the [item] variable of [parseWithEnv], a [yaml.MapItem]. *)
Definition typeName_item (item : MapItem) : string := "yaml.MapItem".

(** [parseWithEnv], with the Environment threaded through. *)
Definition parseWithEnv (p : PipelineParser) (env : Environment)
  : Environment * res value :=
  match yamlUnmarshalMapSlice (Pipeline p) with
  | Err err => (env, Err err)
  | Ok pipeline =>
      match mapSliceItem "env" pipeline with
      | Some item =>
          match Value item with
          | VMapSlice envMap =>
              match interpolateEnvBlock envMap env with
              | (env', Some err) => (env', Err err)
              | (env', None) => (env', Ok (VMapSlice pipeline))
              end
          | _ =>
              (env, Err ("Expected pipeline top-level env block to be a map, got "
                         +:+ typeName_item item))
          end
      | None => (env, Ok (VMapSlice pipeline))
      end
  end.

(** The prefix chosen at the top of [Parse]. *)
Definition errPrefix (p : PipelineParser) : string :=
  if String.eqb (Filename p) "" then "Failed to parse pipeline"
  else "Failed to parse " +:+ Filename p.

(** [fmt.Errorf("%s: %v", errPrefix, formatYAMLError(err))]. *)
Definition wrapError (p : PipelineParser) (err : error) : error :=
  errPrefix p +:+ ": " +:+ formatYAMLError err.

(** What [Parse] hands back: the Go pair [(interface{}, error)], [None]
    for nil on either side, and the final state of the Environment the
    parser worked on. *)
Definition outcome : Type := (option Canonical * option error) * Environment.

(** The second half of [Parse]: interpolation of the decoded pipeline,
    then the round trip through YAML into the canonical tree. *)
Definition parseInterpolated (p : PipelineParser) (env : Environment)
    (pipeline : value) : outcome :=
  match interpolate env pipeline with
  | Err err => ((None, Some err), env)
  | Ok interpolated =>
      match yamlMarshal interpolated with
      | Err err => ((None, Some err), env)
      | Ok b =>
          match UnmarshalAsStringMap b with
          | Err err => ((None, Some (wrapError p err)), env)
          | Ok result => ((result, None), env)
          end
      end
  end.

(** The Environment [Parse] works on: the caller's, or one seeded from
    the process environment when [p.Env] is nil. *)
Definition parserEnv (p : PipelineParser) : Environment :=
  match Env p with
  | Some e => e
  | None => osEnviron
  end.

(** [PipelineParser.Parse]. *)
Definition Parse (p : PipelineParser) : outcome :=
  let env := parserEnv p in
  if NoInterpolation p then
    match UnmarshalAsStringMap (Pipeline p) with
    | Err err => ((None, Some (wrapError p err)), env)
    | Ok result => ((result, None), env)
    end
  else
    match yamlUnmarshalSlice (Pipeline p) with
    | Ok pipelineAsSlice => parseInterpolated p env (VSlice pipelineAsSlice)
    | Err _ =>
        match parseWithEnv p env with
        | (env', Err err) => ((None, Some (wrapError p err)), env')
        | (env', Ok pipelineAsMap) => parseInterpolated p env' pipelineAsMap
        end
    end.

(** The three loops of [interpolateRecursive] under their own names:
    over the elements of a slice, over the items of a [yaml.MapSlice]
    (field [Key], then field [Value]) and over the keys of a native map
    (the value first, then the test on the key, then [SetMapIndex] on the
    copy). *)
Fixpoint interpolateElems (env : Environment) (l : list value)
  : res (list value) :=
  match l with
  | [] => Ok []
  | x :: r =>
      x' ← interpolateRecursive env x;
      r' ← interpolateElems env r;
      Ok (x' :: r')
  end.

Fixpoint interpolateItems (env : Environment) (l : list MapItem)
  : res (list MapItem) :=
  match l with
  | [] => Ok []
  | item :: r =>
      k' ← interpolateRecursive env (fst item);
      v' ← interpolateRecursive env (snd item);
      r' ← interpolateItems env r;
      Ok ((k', v') :: r')
  end.

Fixpoint interpolateKeys (env : Environment) (l copy : list (mapKey * value))
  : res (list (mapKey * value)) :=
  match l with
  | [] => Ok copy
  | kv :: r =>
      copyValue ← interpolateRecursive env (snd kv);
      match keyKind (fst kv) with
      | KindString =>
          interpolatedKey ← Interpolate env (keyString (fst kv));
          interpolateKeys env r (SetMapIndex copy (KString interpolatedKey) copyValue)
      | _ => interpolateKeys env r (SetMapIndex copy (fst kv) copyValue)
      end
  end.

End Parser.

(** The collaborators of the worked examples. *)
Definition demo : Collaborators := {|
  Interpolate := demoInterpolate;
  yamlUnmarshalSlice := demoUnmarshalSlice;
  yamlUnmarshalMapSlice := demoUnmarshalMapSlice;
  yamlMarshal := demoMarshal;
  Canonical := string;
  UnmarshalAsStringMap := demoUnmarshalAsStringMap;
  osEnviron := ∅;
  fmtV := demoFmtV
|}.

(** The parsers of the worked examples: interpolation enabled, the
    caller's Environment [env], the file name [file]. *)
Definition demoParser (file doc : string) (env : Environment) : PipelineParser :=
  {| Env := Some env; Filename := file; Pipeline := doc;
     NoInterpolation := false |}.

Definition env_FOO : Environment := env_Set "FOO" "bar" ∅.
Definition env_KEYVAR : Environment := env_Set "KEYVAR" "name" ∅.
Definition env_AB : Environment := env_Set "A" "x" (env_Set "B" "x" ∅).


(** An order-preserving map whose two keys interpolate to the same
    string under [env_AB]. *)
Definition items_AB : list MapItem :=
  [(VString "${A}", VInt 1); (VString "${B}", VInt 2)].

(** An order-preserving map whose only key is a sequence, as decoded from
    the map-shaped document [? [${A}]] [: v]. *)
Definition items_seq_key : list MapItem :=
  [(VSlice [VString "${A}"], VString "v")].

(** An env block that declares [A] twice. *)
Definition envMap_twice : list MapItem :=
  [(VString "A", VString "one"); (VString "A", VString "${A}-two");
   (VString "B", VString "${A}")].

(** The Environment that block leaves when it is run on an empty one. *)
Definition env_twice : Environment :=
  env_Set "B" "one-two" (env_Set "A" "one-two" (env_Set "A" "one" ∅)).

(** A map-shaped document with two env entries, behind a key that
    differs from [env] by its case, and its decoding. *)
Definition doc_two_env : string := "steps: make
Env: upper
env: {A: one}
env: second".

Definition items_two_env : list MapItem :=
  [(VString "steps", VString "make"); (VString "Env", VString "upper");
   (VString "env", VMapSlice [(VString "A", VString "one")]);
   (VString "env", VString "second")].

(** The collaborators of the worked examples, with a map decoder that
    knows [doc_two_env] as well. *)
Definition demoExtra : Collaborators := {|
  Interpolate := demoInterpolate;
  yamlUnmarshalSlice := demoUnmarshalSlice;
  yamlUnmarshalMapSlice := fun b =>
    if String.eqb b doc_two_env then Ok items_two_env
    else demoUnmarshalMapSlice b;
  yamlMarshal := demoMarshal;
  Canonical := string;
  UnmarshalAsStringMap := demoUnmarshalAsStringMap;
  osEnviron := ∅;
  fmtV := demoFmtV
|}.

Definition env_PATH : Environment := env_Set "PATH" "/bin" ∅.
Definition env_FOO_BAR : Environment := env_Set "BAR" "baz" env_FOO.

(** A sequence-shaped document without any reference. *)
Definition steps_plain : value :=
  VSlice [VMap [(KString "command", VString "make"); (KString "retry", VInt 3)];
          VString "wait"].

(** Modelled from the spec: the canonical result and the normaliser that
    builds it (package [yamltojson] and the decoder of the markup under
    it) are not among the sources. The specification describes the
    canonical result as a string-keyed tree of mappings, sequences and
    scalars (string, number, bool, null), decoded from the bytes of the
    markup; the tree has a node for each datum of the document and none
    for a comment. *)
Inductive canon : Type :=
| CNull
| CString (s : string)
| CInt (n : Z)
| CFloat (bits : Z)
| CBool (b : bool)
| CSeq (l : list canon)
| CMapping (l : list (string * canon)).

(** The string [needle] occurs in the string [s]. *)
Fixpoint occursIn (needle s : string) : bool :=
  String.prefix needle s
  || match s with
     | EmptyString => false
     | String _ r => occursIn needle r
     end.

(** Some string of the tree, a scalar or a key, contains [needle]. *)
Fixpoint canonContains (needle : string) (t : canon) : bool :=
  match t with
  | CString s => occursIn needle s
  | CSeq l => existsb (canonContains needle) l
  | CMapping l =>
      existsb (fun kv => occursIn needle (fst kv)
                         || canonContains needle (snd kv)) l
  | _ => false
  end.

(** A sequence-shaped document with a reference in a comment. *)
Definition doc_commented : string := "# runs ${FOO}
- wait".

(** Modelled from the spec: the normaliser on [doc_commented], whose only
    datum is the one step of the sequence; any other input is rejected
    here. *)
Definition commentNormaliser (b : string) : res (option canon) :=
  if String.eqb b doc_commented then Ok (Some (CSeq [CString "wait"]))
  else Err "yaml: input not among the examples".

(** The collaborators of the worked examples, with the canonical tree
    and that normaliser. *)
Definition demoComment : Collaborators := {|
  Interpolate := demoInterpolate;
  yamlUnmarshalSlice := demoUnmarshalSlice;
  yamlUnmarshalMapSlice := demoUnmarshalMapSlice;
  yamlMarshal := demoMarshal;
  Canonical := canon;
  UnmarshalAsStringMap := commentNormaliser;
  osEnviron := ∅;
  fmtV := demoFmtV
|}.



(** ** Properties *)

Section Properties.

Context {collab : Collaborators}.

(** The loops of [interpolateRecursive] are the named ones. *)
Lemma interpolateRecursive_VSlice env l :
  interpolateRecursive env (VSlice l) =
  l' ← interpolateElems env l; Ok (VSlice l').
Proof.
  cbn [interpolateRecursive]. f_equal.
  induction l as [|x r IH]; [reflexivity|].
  cbn [interpolateElems]. rewrite <- IH. reflexivity.
Qed.

Lemma interpolateRecursive_VMapSlice env l :
  interpolateRecursive env (VMapSlice l) =
  l' ← interpolateItems env l; Ok (VMapSlice l').
Proof.
  cbn [interpolateRecursive]. f_equal.
  induction l as [|item r IH]; [reflexivity|].
  cbn [interpolateItems]. rewrite <- IH. reflexivity.
Qed.

Lemma interpolateRecursive_VMap env l :
  interpolateRecursive env (VMap l) =
  m ← interpolateKeys env l []; Ok (VMap m).
Proof.
  cbn [interpolateRecursive]. f_equal.
  generalize (@nil (mapKey * value)).
  induction l as [|[k v] r IH]; intros copy; [reflexivity|].
  cbn [interpolateKeys fst snd].
  destruct (interpolateRecursive env v) as [cv|e]; [|reflexivity].
  cbn. apply IH.
Qed.

(** One turn of the loop over a native map: the value is walked and
    stored under the key as it is. *)
Lemma interpolateKeys_cons env k v r copy :
  interpolateKeys env ((k, v) :: r) copy =
  copyValue ← interpolateRecursive env v;
  interpolateKeys env r (SetMapIndex copy k copyValue).
Proof. reflexivity. Qed.

(** ** The env block pre-pass *)

(** The loop over a block is the loop over its first part followed, when
    that part raised no error, by the loop over the rest on the
    Environment the first part left. *)
Lemma interpolateEnvBlock_app pre post env :
  interpolateEnvBlock (pre ++ post) env =
  match interpolateEnvBlock pre env with
  | (env', None) => interpolateEnvBlock post env'
  | (env', Some err) => (env', Some err)
  end.
Proof.
  revert env. induction pre as [|[key v] pre IH]; intros env; [reflexivity|].
  cbn [app interpolateEnvBlock Key Value fst snd].
  destruct key; try reflexivity.
  destruct v; try apply IH.
  destruct (Interpolate env s0); [apply IH|reflexivity].
Qed.


(** C2. The entries of an env block are processed in declaration order:
    a string-valued entry is interpolated against the Environment as the
    earlier entries left it and then stored with [Set]; an evaluator
    error stops the loop; an entry whose value is not a string is
    skipped and stores nothing; an entry whose key is not a string stops
    the loop with the key-type error, which [Parse] returns under its
    prefix. For a block of two string entries the second is therefore
    interpolated against the Environment that already holds the
    interpolated first one. *)
Theorem interpolateEnvBlock_sequential :
  (forall env, interpolateEnvBlock [] env = (env, None)) /\
  (forall env k tv s r,
      Interpolate env tv = Ok s ->
      interpolateEnvBlock ((VString k, VString tv) :: r) env =
      interpolateEnvBlock r (env_Set k s env)) /\
  (forall env k tv err r,
      Interpolate env tv = Err err ->
      interpolateEnvBlock ((VString k, VString tv) :: r) env = (env, Some err)) /\
  (forall env k v r,
      (forall tv, v <> VString tv) ->
      interpolateEnvBlock ((VString k, v) :: r) env = interpolateEnvBlock r env) /\
  (forall env key v r,
      (forall k, key <> VString k) ->
      interpolateEnvBlock ((key, v) :: r) env =
      (env, Some ("Unexpected type of " +:+ typeName key +:+
                  " for env block key " +:+ fmtV key))) /\
  (forall env k1 v1 k2 v2 s1 s2,
      Interpolate env v1 = Ok s1 ->
      Interpolate (env_Set k1 s1 env) v2 = Ok s2 ->
      interpolateEnvBlock [(VString k1, VString v1); (VString k2, VString v2)] env
      = (env_Set k2 s2 (env_Set k1 s1 env), None)) /\
  (forall p ignored pipeline item envMap env' err,
      NoInterpolation p = false ->
      yamlUnmarshalSlice (Pipeline p) = Err ignored ->
      yamlUnmarshalMapSlice (Pipeline p) = Ok pipeline ->
      mapSliceItem "env" pipeline = Some item ->
      Value item = VMapSlice envMap ->
      interpolateEnvBlock envMap (parserEnv p) = (env', Some err) ->
      Parse p = ((None, Some (wrapError p err)), env')).
Proof.
  repeat split.
  - intros env k tv s r H. cbn [interpolateEnvBlock Key Value fst snd].
    rewrite H. reflexivity.
  - intros env k tv err r H. cbn [interpolateEnvBlock Key Value fst snd].
    rewrite H. reflexivity.
  - intros env k v r H. cbn [interpolateEnvBlock Key Value fst snd].
    destruct v; try reflexivity. exfalso. eapply H. reflexivity.
  - intros env key v r H. cbn [interpolateEnvBlock Key Value fst snd].
    destruct key; try reflexivity. exfalso. eapply H. reflexivity.
  - intros env k1 v1 k2 v2 s1 s2 H1 H2.
    cbn [interpolateEnvBlock Key Value fst snd]. rewrite H1, H2. reflexivity.
  - intros p ignored pipeline item envMap env' err Hno Hs Hm Hitem Hv Hrun.
    unfold Parse, parseWithEnv. rewrite Hno, Hs, Hm, Hitem, Hv, Hrun.
    reflexivity.
Qed.


(** ** The orchestration in [Parse] *)

(** The second half of [Parse] never touches the Environment. *)
Lemma parseInterpolated_env p env pipeline :
  snd (parseInterpolated p env pipeline) = env.
Proof.
  unfold parseInterpolated.
  destruct (interpolate env pipeline) as [interpolated|err]; [|reflexivity].
  destruct (yamlMarshal interpolated) as [b|err]; [|reflexivity].
  destruct (UnmarshalAsStringMap b); reflexivity.
Qed.

(** An error of the second half comes with a nil document. *)
Lemma parseInterpolated_fail_fast p env pipeline :
  snd (fst (parseInterpolated p env pipeline)) <> None ->
  fst (fst (parseInterpolated p env pipeline)) = None.
Proof.
  unfold parseInterpolated.
  destruct (interpolate env pipeline) as [interpolated|err]; [|reflexivity].
  destruct (yamlMarshal interpolated) as [b|err]; [|reflexivity].
  destruct (UnmarshalAsStringMap b); [|reflexivity].
  cbn. congruence.
Qed.

(** C7. With interpolation enabled [Parse] first decodes the input as a
    bare sequence; when that succeeds the map decoder plays no part, no
    env pre-pass runs and the Environment stays as it was. Only when the
    sequence decode fails is the input decoded as an order-preserving
    map and passed through the env pre-pass; and when the map decode
    fails too, [Parse] fails with the map decoder's diagnostic, one
    leading [yaml: ] removed, under the prefix of [Parse]. *)
Theorem Parse_shape_detection (p : PipelineParser) :
  NoInterpolation p = false ->
  (forall pipelineAsSlice,
      yamlUnmarshalSlice (Pipeline p) = Ok pipelineAsSlice ->
      Parse p = parseInterpolated p (parserEnv p) (VSlice pipelineAsSlice) /\
      snd (Parse p) = parserEnv p) /\
  (forall ignored,
      yamlUnmarshalSlice (Pipeline p) = Err ignored ->
      (forall pipeline,
          yamlUnmarshalMapSlice (Pipeline p) = Ok pipeline ->
          Parse p =
          match parseWithEnv p (parserEnv p) with
          | (env', Err err) => ((None, Some (wrapError p err)), env')
          | (env', Ok pipelineAsMap) => parseInterpolated p env' pipelineAsMap
          end) /\
      (forall err,
          yamlUnmarshalMapSlice (Pipeline p) = Err err ->
          Parse p =
          ((None, Some (errPrefix p +:+ ": " +:+ TrimPrefix err "yaml: ")),
           parserEnv p))).
Proof.
  intros Hno. unfold Parse. rewrite Hno. split.
  - intros l Hl. rewrite Hl. split; [reflexivity|].
    apply parseInterpolated_env.
  - intros ignored Hs. rewrite Hs. split.
    + intros pipeline _. reflexivity.
    + intros err Hm. unfold parseWithEnv. rewrite Hm. reflexivity.
Qed.

(** Everything before the element that fails was interpolated, in
    index order, and what follows it is never looked at. *)
Lemma interpolateElems_first_error env pre x post err :
  Forall (fun y => exists y', interpolateRecursive env y = Ok y') pre ->
  interpolateRecursive env x = Err err ->
  interpolateElems env (pre ++ x :: post) = Err err.
Proof.
  intros Hpre Hx. induction Hpre as [|y pre [y' Hy] _ IH].
  - cbn [app interpolateElems]. rewrite Hx. reflexivity.
  - cbn [app interpolateElems]. rewrite Hy, IH. reflexivity.
Qed.

(** Every [return] of [Parse] that carries an error carries a nil
    document. *)
Lemma Parse_fail_fast p :
  snd (fst (Parse p)) <> None -> fst (fst (Parse p)) = None.
Proof.
  unfold Parse. destruct (NoInterpolation p).
  - destruct (UnmarshalAsStringMap (Pipeline p)); [|reflexivity].
    cbn. congruence.
  - destruct (yamlUnmarshalSlice (Pipeline p)) as [l|ignored].
    + apply parseInterpolated_fail_fast.
    + destruct (parseWithEnv p (parserEnv p)) as [env' [pipelineAsMap|err]].
      * apply parseInterpolated_fail_fast.
      * reflexivity.
Qed.

(** C8. The tree walk interpolates the elements of a sequence in index
    order and stops at the first one that fails: when every element
    before [x] interpolates and [x] fails with [err], the walk of the
    whole sequence fails with [err], whatever follows [x]. And whenever
    [Parse] returns an error, the document it returns is nil. *)
Theorem Parse_is_fail_fast :
  (forall env pre x post err,
      Forall (fun y => exists y', interpolateRecursive env y = Ok y') pre ->
      interpolateRecursive env x = Err err ->
      interpolateRecursive env (VSlice (pre ++ x :: post)) = Err err) /\
  (forall p, snd (fst (Parse p)) <> None -> fst (fst (Parse p)) = None).
Proof.
  split.
  - intros env pre x post err Hpre Hx.
    rewrite interpolateRecursive_VSlice.
    rewrite (interpolateElems_first_error env pre x post err Hpre Hx).
    reflexivity.
  - exact Parse_fail_fast.
Qed.

(** C9. [Parse] does not roll the Environment back: when the env
    pre-pass of a map-shaped document has run without error and left
    the Environment as [env'], the Environment is [env'] after [Parse],
    also when interpolation, marshalling or normalisation then fails and
    [Parse] returns that error with a nil document. *)
Theorem Parse_env_not_rolled_back p ignored pipeline item envMap env' :
  NoInterpolation p = false ->
  yamlUnmarshalSlice (Pipeline p) = Err ignored ->
  yamlUnmarshalMapSlice (Pipeline p) = Ok pipeline ->
  mapSliceItem "env" pipeline = Some item ->
  Value item = VMapSlice envMap ->
  interpolateEnvBlock envMap (parserEnv p) = (env', None) ->
  snd (Parse p) = env' /\
  (forall err, interpolate env' (VMapSlice pipeline) = Err err ->
               Parse p = ((None, Some err), env')) /\
  (forall interpolated err,
      interpolate env' (VMapSlice pipeline) = Ok interpolated ->
      yamlMarshal interpolated = Err err ->
      Parse p = ((None, Some err), env')) /\
  (forall interpolated b err,
      interpolate env' (VMapSlice pipeline) = Ok interpolated ->
      yamlMarshal interpolated = Ok b ->
      UnmarshalAsStringMap b = Err err ->
      Parse p = ((None, Some (wrapError p err)), env')).
Proof.
  intros Hno Hs Hm Hitem Hv Hrun.
  assert (HP : Parse p = parseInterpolated p env' (VMapSlice pipeline)).
  { unfold Parse, parseWithEnv. rewrite Hno, Hs, Hm, Hitem, Hv, Hrun.
    reflexivity. }
  rewrite HP. split; [apply parseInterpolated_env|].
  unfold parseInterpolated. repeat split.
  - intros err ->. reflexivity.
  - intros interpolated err -> ->. reflexivity.
  - intros interpolated b err -> -> ->. reflexivity.
Qed.

(** ** The tree walk *)

Lemma forall2b_app {A B : Type} (f : A -> B -> bool) l1 l1' l2 l2' :
  forall2b f l1 l1' = true -> forall2b f l2 l2' = true ->
  forall2b f (l1 ++ l2) (l1' ++ l2') = true.
Proof.
  revert l1'. induction l1 as [|x l1 IH]; intros [|x' l1']; cbn;
    try discriminate; [tauto|].
  intros [Hx Hr]%andb_prop Hl2. rewrite Hx. cbn. auto.
Qed.

Lemma forall2b_length {A B : Type} (f : A -> B -> bool) l l' :
  forall2b f l l' = true -> List.length l' = List.length l.
Proof.
  revert l'. induction l as [|x l IH]; intros [|x' l']; cbn;
    try discriminate; [reflexivity|].
  intros [_ Hr]%andb_prop. f_equal. auto.
Qed.

Lemma sameKeyShape_refl k : sameKeyShape k k = true.
Proof. destruct k as [| | | |[]]; cbn; try reflexivity; apply Z.eqb_refl. Qed.

Lemma sameShape_refl v : sameShape v v = true.
Proof.
  induction v as [| | | | |l IH|l IH|l IH] using value_nested_ind; cbn;
    try reflexivity; try apply Z.eqb_refl.
  - destruct b; reflexivity.
  - induction IH as [|x r Hx _ IHr]; cbn; [reflexivity|].
    rewrite Hx, IHr. reflexivity.
  - induction IH as [|x r [Hk Hv] _ IHr]; cbn; [reflexivity|].
    rewrite Hk, Hv, IHr. reflexivity.
  - induction IH as [|[k v] r Hv _ IHr]; cbn in *; [reflexivity|].
    rewrite sameKeyShape_refl, Hv, IHr. reflexivity.
Qed.

(** A key that is equal to no key of the map gets an entry of its own,
    after the others. *)
Lemma SetMapIndex_fresh m k v :
  forallb (fun k' => negb (keyEqb k' k)) (map fst m) = true ->
  SetMapIndex m k v = m ++ [(k, v)].
Proof.
  induction m as [|[k' v'] m IH]; cbn; [reflexivity|].
  intros [Hk Hm]%andb_prop. apply negb_true_iff in Hk. rewrite Hk.
  f_equal. auto.
Qed.

(** [SetMapIndex] adds at most one entry. *)
Lemma SetMapIndex_length m k v :
  List.length (SetMapIndex m k v) <= S (List.length m).
Proof.
  induction m as [|[k' v'] m IH]; cbn; [lia|].
  destruct (keyEqb k' k); cbn; lia.
Qed.

Lemma keysDistinctb_app_cons ks k r :
  keysDistinctb (ks ++ k :: r) = true ->
  forallb (fun k' => negb (keyEqb k' k)) ks = true.
Proof.
  induction ks as [|k0 ks IH]; cbn; [reflexivity|].
  intros [Hk0 Hks]%andb_prop. rewrite forallb_app in Hk0.
  apply andb_prop in Hk0 as [_ Hk0]. cbn in Hk0.
  apply andb_prop in Hk0 as [Hk0 _]. rewrite Hk0. cbn. auto.
Qed.

(** The loop over a native map whose keys are pairwise distinct, and
    distinct from those already in the copy, appends one entry per source
    entry, in enumeration order: the key as it is, with the walked
    value. *)
Lemma interpolateKeys_entries env l :
  forall copy m,
    interpolateKeys env l copy = Ok m ->
    keysDistinctb (map fst copy ++ map fst l) = true ->
    exists m',
      m = copy ++ m' /\
      Forall2 (fun kv kv' => fst kv' = fst kv /\
                             interpolateRecursive env (snd kv) = Ok (snd kv'))
              l m'.
Proof.
  induction l as [|[k v] l IH]; intros copy m.
  - intros [= ->] _. exists []. split; [symmetry; apply app_nil_r|constructor].
  - rewrite interpolateKeys_cons.
    destruct (interpolateRecursive env v) as [cv|] eqn:Hv; [|discriminate].
    cbn [mbind res_bind map fst]. intros Hrun Hdist.
    rewrite (SetMapIndex_fresh copy k cv) in Hrun
      by (eapply keysDistinctb_app_cons; exact Hdist).
    destruct (IH _ _ Hrun) as (m' & -> & Hm').
    + rewrite map_app. cbn. rewrite <- app_assoc. exact Hdist.
    + exists ((k, cv) :: m'). split; [rewrite <- app_assoc; reflexivity|].
      constructor; [split; [reflexivity|exact Hv]|exact Hm'].
Qed.

(** The walk keeps the shape of every document whose native maps are Go
    maps. *)
Lemma interpolateRecursive_shape env original :
  forall copy,
    interpolateRecursive env original = Ok copy ->
    distinctKeys original = true ->
    sameShape original copy = true.
Proof.
  induction original as [| | | | |l IH|l IH|l IH] using value_nested_ind;
    intros copy.
  - intros [= <-] _. reflexivity.
  - cbn. destruct (Interpolate env s); cbn; [intros [= <-]; reflexivity|discriminate].
  - intros [= <-] _. apply (sameShape_refl (VInt n)).
  - intros [= <-] _. apply (sameShape_refl (VFloat b)).
  - intros [= <-] _. apply (sameShape_refl (VBool b)).
  - rewrite interpolateRecursive_VSlice. cbn [distinctKeys].
    destruct (interpolateElems env l) as [l'|] eqn:Hl; [|discriminate].
    cbn. intros [= <-] Hnc. cbn [sameShape].
    revert l' Hl Hnc. induction IH as [|x r Hx _ IHr]; intros l'.
    + intros [= <-] _. reflexivity.
    + cbn [interpolateElems forallb].
      destruct (interpolateRecursive env x) as [x'|]; [|discriminate]. cbn.
      destruct (interpolateElems env r) as [r'|]; [|discriminate]. cbn.
      intros [= <-] [Hcx Hcr]%andb_prop. cbn.
      rewrite (Hx x' eq_refl Hcx), (IHr r' eq_refl Hcr). reflexivity.
  - rewrite interpolateRecursive_VMapSlice. cbn [distinctKeys].
    destruct (interpolateItems env l) as [l'|] eqn:Hl; [|discriminate].
    cbn. intros [= <-] Hnc. cbn [sameShape].
    revert l' Hl Hnc. induction IH as [|[k v] r [Hk Hv] _ IHr]; intros l'.
    + intros [= <-] _. reflexivity.
    + cbn [interpolateItems forallb fst snd] in *.
      destruct (interpolateRecursive env k) as [k'|]; [|discriminate]. cbn.
      destruct (interpolateRecursive env v) as [v'|]; [|discriminate]. cbn.
      destruct (interpolateItems env r) as [r'|]; [|discriminate]. cbn.
      intros [= <-] [[Hck Hcv]%andb_prop Hcr]%andb_prop. cbn.
      rewrite (Hk k' eq_refl Hck), (Hv v' eq_refl Hcv), (IHr r' eq_refl Hcr).
      reflexivity.
  - rewrite interpolateRecursive_VMap. cbn [distinctKeys].
    destruct (interpolateKeys env l []) as [m|] eqn:Hm; [|discriminate].
    cbn. intros [= <-] [Hdist Hnc]%andb_prop. cbn [sameShape].
    destruct (interpolateKeys_entries env l _ _ Hm Hdist) as (m' & -> & Hm').
    cbn [app]. clear Hm Hdist.
    induction Hm' as [|[k v] [k' v'] l m' [Hk Hv] _ IHm]; [reflexivity|].
    apply Forall_cons in IH as [IHv IHl]. cbn [forallb] in Hnc.
    apply andb_prop in Hnc as [Hcv Hcl].
    cbn [fst snd forall2b] in *. subst k'.
    rewrite sameKeyShape_refl, (IHv v' Hv Hcv), (IHm IHl Hcl). reflexivity.
Qed.

Lemma orderedOnly_distinctKeys v :
  orderedOnly v = true -> distinctKeys v = true.
Proof.
  induction v as [| | | | |l IH|l IH|l IH] using value_nested_ind; cbn;
    try reflexivity; try discriminate.
  - induction IH as [|x r Hx _ IHr]; cbn; [reflexivity|].
    intros [Hox Hor]%andb_prop. rewrite (Hx Hox), (IHr Hor). reflexivity.
  - induction IH as [|[k v] r [Hk Hv] _ IHr]; cbn in *; [reflexivity|].
    intros [[Hok Hov]%andb_prop Hor]%andb_prop.
    rewrite (Hk Hok), (Hv Hov), (IHr Hor). reflexivity.
Qed.

Lemma interpolateElems_Forall2 env l l' :
  interpolateElems env l = Ok l' ->
  Forall2 (fun x x' => interpolateRecursive env x = Ok x') l l'.
Proof.
  revert l'. induction l as [|x r IH]; intros l'; cbn [interpolateElems].
  - intros [= <-]. constructor.
  - destruct (interpolateRecursive env x) as [x'|] eqn:Hx; [|discriminate]. cbn.
    destruct (interpolateElems env r) as [r'|]; [|discriminate]. cbn.
    intros [= <-]. constructor; auto.
Qed.

Lemma interpolateItems_Forall2 env l l' :
  interpolateItems env l = Ok l' ->
  Forall2 (fun item item' =>
             interpolateRecursive env (Key item) = Ok (Key item') /\
             interpolateRecursive env (Value item) = Ok (Value item')) l l'.
Proof.
  revert l'. induction l as [|[k v] r IH]; intros l';
    cbn [interpolateItems fst snd].
  - intros [= <-]. constructor.
  - destruct (interpolateRecursive env k) as [k'|] eqn:Hk; [|discriminate]. cbn.
    destruct (interpolateRecursive env v) as [v'|] eqn:Hv; [|discriminate]. cbn.
    destruct (interpolateItems env r) as [r'|]; [|discriminate]. cbn.
    intros [= <-]. constructor; auto.
Qed.

(** The items before the one that fails were walked, key then value,
    and what follows it is never looked at. *)
Lemma interpolateItems_first_error env pre item post err :
  Forall (fun it => exists it', interpolateItems env [it] = Ok [it']) pre ->
  interpolateItems env [item] = Err err ->
  interpolateItems env (pre ++ item :: post) = Err err.
Proof.
  intros Hpre Hitem. cbn [interpolateItems] in Hitem.
  induction Hpre as [|it pre [it' Hit] _ IH]; cbn [app interpolateItems].
  - destruct (interpolateRecursive env (fst item)); [|exact Hitem]. cbn in *.
    destruct (interpolateRecursive env (snd item)); [discriminate|exact Hitem].
  - cbn [interpolateItems] in Hit.
    destruct (interpolateRecursive env (fst it)); [|discriminate]. cbn in *.
    destruct (interpolateRecursive env (snd it)); [|discriminate]. cbn in *.
    rewrite IH. reflexivity.
Qed.

Lemma sameShape_typeName a b :
  sameShape a b = true -> typeName a = typeName b.
Proof.
  destruct a, b; cbn; try discriminate; try reflexivity.
  intros ->%Z.eqb_eq. reflexivity.
Qed.

(** C1. A successful walk of a document whose native maps are Go maps (no
    key twice) returns a document of the same shape: each node has the
    variant of its source node, a sequence its length, a map its entries
    in the same order, and only string leaves and string keys may differ
    in value. In particular every map has exactly as many entries as its
    source, also when two keys interpolate to the same string: the keys
    of an order-preserving map are items of a list, and the keys of a
    native map come back as they are. *)
Theorem interpolateRecursive_keeps_shape env original copy :
  interpolateRecursive env original = Ok copy ->
  distinctKeys original = true ->
  sameShape original copy = true /\
  typeName copy = typeName original /\
  (forall l, original = VSlice l ->
             exists l', copy = VSlice l' /\ List.length l' = List.length l) /\
  (forall l, original = VMapSlice l ->
             exists l', copy = VMapSlice l' /\ List.length l' = List.length l) /\
  (forall l, original = VMap l ->
             exists m, copy = VMap m /\ List.length m = List.length l /\
                       map fst m = map fst l).
Proof.
  intros Hrun Hgo.
  pose proof (interpolateRecursive_shape env original copy Hrun Hgo) as Hshape.
  split; [exact Hshape|]. split; [symmetry; apply sameShape_typeName, Hshape|].
  repeat split.
  - intros l ->. destruct copy as [| | | | |l'| |]; try discriminate.
    exists l'. split; [reflexivity|]. eapply forall2b_length, Hshape.
  - intros l ->. destruct copy as [| | | | | |l'|]; try discriminate.
    exists l'. split; [reflexivity|]. eapply forall2b_length, Hshape.
  - intros l ->. rewrite interpolateRecursive_VMap in Hrun.
    destruct (interpolateKeys env l []) as [m|] eqn:Hm; [|discriminate].
    injection Hrun as <-. exists m. split; [reflexivity|].
    cbn [distinctKeys] in Hgo. apply andb_prop in Hgo as [Hdist _].
    destruct (interpolateKeys_entries env l _ _ Hm Hdist) as (m' & -> & Hm').
    cbn [app]. clear Hm Hshape Hdist.
    induction Hm' as [|[k v] [k' v'] l m' [Hk _] _ [IHlen IHkeys]];
      [split; reflexivity|].
    cbn in *. subst k'. split; congruence.
Qed.

(** C5, as the code has it, for order-preserving maps ([yaml.MapSlice]);
    the keys of a native map, which the walk stores as they are, are not
    its subject. The walk of an order-preserving map returns
    an order-preserving map with one item per source item, in the same
    order, whose key is the walk of the source key and whose value is
    the walk of the source value. The walk of a string is its
    interpolation, so a string key is interpolated like a string value,
    and a key that is neither a string nor composite is returned as it
    is; a composite key is walked like any other node. An evaluator
    error on a string key, or in a value, is returned as it is and ends
    the walk. *)
Theorem interpolateRecursive_ordered_map env :
  (forall l copy,
      interpolateRecursive env (VMapSlice l) = Ok copy ->
      exists l',
        copy = VMapSlice l' /\
        Forall2 (fun item item' =>
                   interpolateRecursive env (Key item) = Ok (Key item') /\
                   interpolateRecursive env (Value item) = Ok (Value item'))
                l l') /\
  (forall k, interpolateRecursive env (VString k) =
             k' ← Interpolate env k; Ok (VString k')) /\
  (forall key, isComposite key = false -> (forall k, key <> VString k) ->
               interpolateRecursive env key = Ok key) /\
  (forall k v k' v',
      Interpolate env k = Ok k' -> Interpolate env v = Ok v' ->
      interpolateRecursive env (VMapSlice [(VString k, VString v)]) =
      Ok (VMapSlice [(VString k', VString v')])) /\
  (forall pre k v post err,
      Forall (fun it => exists it', interpolateItems env [it] = Ok [it']) pre ->
      Interpolate env k = Err err ->
      interpolateRecursive env (VMapSlice (pre ++ (VString k, v) :: post)) =
      Err err) /\
  (forall pre k v post k' err,
      Forall (fun it => exists it', interpolateItems env [it] = Ok [it']) pre ->
      Interpolate env k = Ok k' ->
      Interpolate env v = Err err ->
      interpolateRecursive env (VMapSlice (pre ++ (VString k, VString v) :: post)) =
      Err err).
Proof.
  repeat split.
  - intros l copy Hrun. rewrite interpolateRecursive_VMapSlice in Hrun.
    destruct (interpolateItems env l) as [l'|] eqn:Hl; [|discriminate].
    injection Hrun as <-. exists l'. split; [reflexivity|].
    apply interpolateItems_Forall2, Hl.
  - intros key Hc Hk. destruct key; try reflexivity; try discriminate.
    exfalso. eapply Hk. reflexivity.
  - intros k v k' v' Hk Hv. cbn. rewrite Hk. cbn. rewrite Hv. reflexivity.
  - intros pre k v post err Hpre Hk. rewrite interpolateRecursive_VMapSlice.
    rewrite (interpolateItems_first_error env pre (VString k, v) post err Hpre);
      [reflexivity|].
    cbn. rewrite Hk. reflexivity.
  - intros pre k v post k' err Hpre Hk Hv. rewrite interpolateRecursive_VMapSlice.
    rewrite (interpolateItems_first_error env pre (VString k, VString v) post err Hpre);
      [reflexivity|].
    cbn. rewrite Hk. cbn. rewrite Hv. reflexivity.
Qed.

(** What [Parse] does when interpolation is disabled. *)
Lemma Parse_raw p :
  NoInterpolation p = true ->
  Parse p =
  (match UnmarshalAsStringMap (Pipeline p) with
   | Ok result => (result, None)
   | Err err => (None, Some (wrapError p err))
   end, parserEnv p).
Proof.
  intros Hno. unfold Parse. rewrite Hno.
  destruct (UnmarshalAsStringMap (Pipeline p)); reflexivity.
Qed.

(** An env entry that is not an order-preserving map fails the parse, and
    the message ends with the type of the map item. *)
Lemma Parse_env_not_a_map p ignored pipeline item :
  NoInterpolation p = false ->
  yamlUnmarshalSlice (Pipeline p) = Err ignored ->
  yamlUnmarshalMapSlice (Pipeline p) = Ok pipeline ->
  mapSliceItem "env" pipeline = Some item ->
  (forall envMap, Value item <> VMapSlice envMap) ->
  Parse p =
  ((None, Some (errPrefix p +:+
                ": Expected pipeline top-level env block to be a map, got yaml.MapItem")),
   parserEnv p).
Proof.
  intros Hno Hs Hm Hitem Hv. unfold Parse, parseWithEnv.
  rewrite Hno, Hs, Hm, Hitem.
  destruct (Value item) eqn:E; try reflexivity.
  exfalso. eapply Hv. reflexivity.
Qed.

(** An error of the tree walk, and an error of [yaml.Marshal], leave
    [Parse] as they are. *)
Lemma Parse_walk_error p pipelineAsSlice :
  NoInterpolation p = false ->
  yamlUnmarshalSlice (Pipeline p) = Ok pipelineAsSlice ->
  (forall err, interpolate (parserEnv p) (VSlice pipelineAsSlice) = Err err ->
               Parse p = ((None, Some err), parserEnv p)) /\
  (forall interpolated err,
      interpolate (parserEnv p) (VSlice pipelineAsSlice) = Ok interpolated ->
      yamlMarshal interpolated = Err err ->
      Parse p = ((None, Some err), parserEnv p)).
Proof.
  intros Hno Hs. unfold Parse, parseInterpolated. rewrite Hno, Hs. split.
  - intros err ->. reflexivity.
  - intros interpolated err -> ->. reflexivity.
Qed.

(** ** The env entry and the pre-pass, further *)

(** X1. [mapSliceItem] returns the first item, in scan order, whose key is
    the string [key] itself (same characters, same case); an item whose
    key is not a string is passed over; and it reports that there is none
    exactly when no item has that key. *)
Theorem mapSliceItem_first_match key s :
  (forall item,
      mapSliceItem key s = Some item <->
      exists pre post,
        s = pre ++ item :: post /\
        Key item = VString key /\
        Forall (fun it => Key it <> VString key) pre) /\
  (mapSliceItem key s = None <->
   Forall (fun it => Key it <> VString key) s).
Proof.
  induction s as [|[k v] s [IHsome IHnone]]; split.
  - intros item. split; [discriminate|].
    intros (pre & post & Hs & _). destruct pre; discriminate.
  - split; [constructor|reflexivity].
  - intros item. cbn [mapSliceItem Key fst]. split.
    + intros Hfind.
      assert (Hskip : mapSliceItem key s = Some item -> k <> VString key ->
                      exists pre post,
                        (k, v) :: s = pre ++ item :: post /\
                        Key item = VString key /\
                        Forall (fun it => Key it <> VString key) pre).
      { intros (pre & post & -> & Hk & Hpre)%IHsome Hne.
        exists ((k, v) :: pre), post. repeat split; [exact Hk|].
        constructor; [exact Hne|exact Hpre]. }
      destruct k; try (apply Hskip; [exact Hfind|discriminate]).
      destruct (String.eqb s0 key) eqn:E.
      * apply String.eqb_eq in E as ->. injection Hfind as <-.
        exists [], s. repeat split. constructor.
      * apply String.eqb_neq in E. apply Hskip; [exact Hfind|congruence].
    + intros (pre & post & Hs & Hk & Hpre).
      destruct pre as [|it pre]; cbn in Hs; injection Hs as <- ->.
      * cbn in Hk. rewrite Hk, String.eqb_refl. reflexivity.
      * apply Forall_cons in Hpre as [Hne Hpre]. cbn in Hne.
        assert (Hrest : mapSliceItem key (pre ++ item :: post) = Some item)
          by (apply IHsome; eauto).
        destruct k; try exact Hrest.
        destruct (String.eqb s key) eqn:E; [|exact Hrest].
        apply String.eqb_eq in E as ->. congruence.
  - cbn [mapSliceItem Key fst]. rewrite Forall_cons. cbn [Key fst].
    destruct k; try (rewrite IHnone; split; [intros Hs; split; [discriminate|exact Hs]|tauto]).
    destruct (String.eqb s0 key) eqn:E.
    + apply String.eqb_eq in E as ->. split; [discriminate|]. intros [Hne _].
      congruence.
    + apply String.eqb_neq in E. rewrite IHnone. split; [|tauto].
      intros Hs. split; [congruence|exact Hs].
Qed.

(** An item with the key, behind items without it, is the one found. *)
Lemma mapSliceItem_found key pre item post :
  Key item = VString key ->
  Forall (fun it => Key it <> VString key) pre ->
  mapSliceItem key (pre ++ item :: post) = Some item.
Proof.
  intros Hk. induction 1 as [|[k v] pre Hne _ IH]; cbn [app mapSliceItem].
  - rewrite Hk, String.eqb_refl. reflexivity.
  - cbn [Key fst] in *. destruct k; try exact IH.
    destruct (String.eqb s key) eqn:E; [|exact IH].
    apply String.eqb_eq in E as ->. congruence.
Qed.

(** X2. When [parseWithEnv] succeeds, the document it returns is the
    decoded one as it is, the env entry included: the pre-pass rewrites
    nothing in it. Without an env entry the Environment is left as it
    was, and so it is when the decoder fails. *)
Theorem parseWithEnv_keeps_document p env env' :
  (forall v,
      parseWithEnv p env = (env', Ok v) ->
      exists pipeline,
        yamlUnmarshalMapSlice (Pipeline p) = Ok pipeline /\
        v = VMapSlice pipeline /\
        (mapSliceItem "env" pipeline = None -> env' = env)) /\
  (forall err err',
      parseWithEnv p env = (env', Err err) ->
      yamlUnmarshalMapSlice (Pipeline p) = Err err' ->
      env' = env /\ err = err').
Proof.
  unfold parseWithEnv. split.
  - intros v. destruct (yamlUnmarshalMapSlice (Pipeline p)) as [pipeline|err];
      [|discriminate].
    destruct (mapSliceItem "env" pipeline) as [item|] eqn:Hfind.
    + destruct (Value item); try discriminate.
      destruct (interpolateEnvBlock l env) as [env1 [err|]]; cbn;
        [discriminate|].
      intros [= <- <-]. exists pipeline. repeat split. congruence.
    + intros [= <- <-]. exists pipeline. repeat split.
  - intros err err' Hrun Hdec. rewrite Hdec in Hrun. injection Hrun as <- <-.
    split; reflexivity.
Qed.

(** X3. Only the first env entry of the document takes part in the
    pre-pass: what follows it, another env entry included, changes
    neither the Environment nor the outcome of [parseWithEnv]. *)
Theorem parseWithEnv_first_env_entry p env pre envValue post :
  yamlUnmarshalMapSlice (Pipeline p) =
    Ok (pre ++ (VString "env", envValue) :: post) ->
  Forall (fun it => Key it <> VString "env") pre ->
  parseWithEnv p env =
  match envValue with
  | VMapSlice envMap =>
      match interpolateEnvBlock envMap env with
      | (env', Some err) => (env', Err err)
      | (env', None) =>
          (env', Ok (VMapSlice (pre ++ (VString "env", envValue) :: post)))
      end
  | _ =>
      (env, Err "Expected pipeline top-level env block to be a map, got yaml.MapItem")
  end.
Proof.
  intros Hdec Hpre. unfold parseWithEnv. rewrite Hdec.
  rewrite (mapSliceItem_found "env" pre (VString "env", envValue) post eq_refl Hpre).
  cbn [Value snd]. destruct envValue; reflexivity.
Qed.

(** X4. The pre-pass stops at the first entry that fails, be it for its
    key or for its template: the entries before it stay stored in the
    Environment, the failing entry stores nothing and the entries after
    it are not looked at. *)
Theorem interpolateEnvBlock_stops_at_first_error pre item post env env_mid err :
  interpolateEnvBlock pre env = (env_mid, None) ->
  snd (interpolateEnvBlock [item] env_mid) = Some err ->
  interpolateEnvBlock (pre ++ item :: post) env = (env_mid, Some err).
Proof.
  intros Hpre Hitem. rewrite interpolateEnvBlock_app, Hpre.
  destruct item as [k v]. cbn [interpolateEnvBlock Key Value fst snd] in *.
  destruct k; try (cbn in Hitem |- *; f_equal; exact Hitem).
  destruct v as [|tv| | | | | |]; try (cbn in Hitem; discriminate Hitem).
  destruct (Interpolate env_mid tv); cbn in Hitem;
    [discriminate Hitem|f_equal; exact Hitem].
Qed.

(** Keys that no string-valued entry of the block declares read the same
    before and after the pre-pass. *)
Lemma interpolateEnvBlock_other_keys envMap env k :
  Forall (fun item => forall tv, item <> (VString k, VString tv)) envMap ->
  env_Get (fst (interpolateEnvBlock envMap env)) k = env_Get env k.
Proof.
  intros Hframe. revert env.
  induction Hframe as [|[key v] envMap Hitem _ IH]; intros env; [reflexivity|].
  cbn [interpolateEnvBlock Key Value fst snd].
  destruct key; try reflexivity.
  destruct v as [|tv| | | | | |]; try apply IH.
  destruct (Interpolate env tv) as [interpolated|err]; [|reflexivity].
  rewrite IH. unfold env_Get, env_Set.
  apply lookup_insert_ne. intros ->. eapply Hitem. reflexivity.
Qed.

(** X5. The pre-pass, whether it ends well or with an error, changes the
    Environment only at the keys of the string-valued entries of the
    block: every other variable reads as before. *)
Theorem interpolateEnvBlock_frame envMap env k :
  Forall (fun item => forall tv, item <> (VString k, VString tv)) envMap ->
  env_Get (fst (interpolateEnvBlock envMap env)) k = env_Get env k.
Proof. apply interpolateEnvBlock_other_keys. Qed.

(** The pre-pass removes no variable. *)
Lemma interpolateEnvBlock_keeps_defined envMap env k :
  is_Some (env_Get env k) ->
  is_Some (env_Get (fst (interpolateEnvBlock envMap env)) k).
Proof.
  revert env. induction envMap as [|[key v] envMap IH]; intros env Hk;
    [exact Hk|].
  cbn [interpolateEnvBlock Key Value fst snd].
  destruct key; try exact Hk.
  destruct v as [|tv| | | | | |]; try (apply IH; exact Hk).
  destruct (Interpolate env tv) as [interpolated|err]; [|exact Hk].
  apply IH. unfold env_Get, env_Set in *. rewrite lookup_insert.
  destruct (decide (s = k)); [eauto|exact Hk].
Qed.

(** X6. The pre-pass never removes a variable from the Environment, and
    after a pre-pass without error every key of a string-valued entry of
    the block is defined in it. *)
Theorem interpolateEnvBlock_defines envMap env env' :
  interpolateEnvBlock envMap env = (env', None) ->
  (forall k, is_Some (env_Get env k) -> is_Some (env_Get env' k)) /\
  Forall (fun item => forall k tv, item = (VString k, VString tv) ->
                                   is_Some (env_Get env' k)) envMap.
Proof.
  intros Hrun. split.
  - intros k Hk.
    pose proof (interpolateEnvBlock_keeps_defined envMap env k Hk) as Hd.
    rewrite Hrun in Hd. exact Hd.
  - revert env Hrun. induction envMap as [|[key v] envMap IH]; intros env Hrun;
      constructor.
    + intros k tv [= -> ->]. cbn [interpolateEnvBlock Key Value fst snd] in Hrun.
      destruct (Interpolate env tv) as [interpolated|err]; [|discriminate].
      pose proof (interpolateEnvBlock_keeps_defined envMap
                    (env_Set k interpolated env) k) as Hd.
      rewrite Hrun in Hd. apply Hd.
      unfold env_Get, env_Set. rewrite lookup_insert_eq. eauto.
    + cbn [interpolateEnvBlock Key Value fst snd] in Hrun.
      destruct key; try discriminate.
      destruct v as [|tv| | | | | |]; try (eapply IH; exact Hrun).
      destruct (Interpolate env tv) as [interpolated|err]; [|discriminate].
      eapply IH. exact Hrun.
Qed.

(** ** Error messages, further *)

Lemma substring_all s : String.substring 0 (String.length s) s = s.
Proof. induction s as [|c s IH]; cbn; [reflexivity|]. rewrite IH. reflexivity. Qed.

Lemma prefix_append a b : String.prefix a (a +:+ b) = true.
Proof.
  induction a as [|c a IH]; [destruct b; reflexivity|].
  change (String.prefix (String c a) (String c (a +:+ b)) = true).
  cbn [String.prefix]. destruct (Ascii.ascii_dec c c); [exact IH|congruence].
Qed.

(** A prefix that is there is cut off and nothing else is; one that is
    not there leaves the string as it is. *)
Lemma TrimPrefix_spec s pre :
  (String.prefix pre s = true -> pre +:+ TrimPrefix s pre = s) /\
  (String.prefix pre s = false -> TrimPrefix s pre = s).
Proof.
  unfold TrimPrefix. split; intros Hp; rewrite Hp; [|reflexivity].
  revert s Hp. induction pre as [|c pre IH]; intros s Hp.
  - cbn. rewrite Nat.sub_0_r. apply substring_all.
  - destruct s as [|d s]; [discriminate|]. cbn in Hp.
    destruct (Ascii.ascii_dec c d) as [->|]; [|discriminate].
    cbn [String.length String.substring Nat.sub].
    change (String d (pre +:+ String.substring (String.length pre)
                        (String.length s - String.length pre) s) = String d s).
    f_equal. apply IH, Hp.
Qed.

Lemma append_cancel pre a b : pre +:+ a = pre +:+ b -> a = b.
Proof.
  induction pre as [|c pre IH]; intros Heq; [exact Heq|].
  change (String c (pre +:+ a) = String c (pre +:+ b)) in Heq.
  injection Heq as Heq. auto.
Qed.

Lemma TrimPrefix_append pre s : TrimPrefix (pre +:+ s) pre = s.
Proof.
  apply (append_cancel pre), TrimPrefix_spec, prefix_append.
Qed.

(** X7. [formatYAMLError] removes one leading [yaml: ] and nothing else:
    putting the prefix back gives the message it was given, a message
    that does not start with it is returned as it is, and of two leading
    prefixes the second one stays. *)
Theorem formatYAMLError_strips_one_prefix :
  (forall err, String.prefix "yaml: " err = true ->
               "yaml: " +:+ formatYAMLError err = err) /\
  (forall err, String.prefix "yaml: " err = false -> formatYAMLError err = err) /\
  (forall msg, formatYAMLError ("yaml: " +:+ msg) = msg) /\
  (forall msg, formatYAMLError ("yaml: yaml: " +:+ msg) = "yaml: " +:+ msg).
Proof.
  unfold formatYAMLError. repeat split.
  - intros err. apply TrimPrefix_spec.
  - intros err. apply TrimPrefix_spec.
  - intros msg. apply TrimPrefix_append.
  - intros msg. apply (TrimPrefix_append "yaml: " ("yaml: " +:+ msg)).
Qed.

(** X8. Every error that [Parse] wraps starts with the prefix of the
    parser. With interpolation disabled this is every error [Parse]
    returns, and with interpolation enabled it is every error of the
    decoding and of the env pre-pass. *)
Theorem Parse_wrapped_error_prefix p :
  (forall err, String.prefix (errPrefix p) (wrapError p err) = true) /\
  (forall e, NoInterpolation p = true ->
             snd (fst (Parse p)) = Some e ->
             String.prefix (errPrefix p) e = true) /\
  (forall ignored env' err,
      NoInterpolation p = false ->
      yamlUnmarshalSlice (Pipeline p) = Err ignored ->
      parseWithEnv p (parserEnv p) = (env', Err err) ->
      exists e, snd (fst (Parse p)) = Some e /\
                String.prefix (errPrefix p) e = true).
Proof.
  assert (Hw : forall err, String.prefix (errPrefix p) (wrapError p err) = true)
    by (intros err; apply prefix_append).
  repeat split.
  - exact Hw.
  - intros e Hno. rewrite (Parse_raw p Hno). cbn [fst snd].
    destruct (UnmarshalAsStringMap (Pipeline p)); [discriminate|].
    intros [= <-]. apply Hw.
  - intros ignored env' err Hno Hs Hrun. unfold Parse.
    rewrite Hno, Hs, Hrun. eexists. split; [reflexivity|apply Hw].
Qed.

(** ** The tree walk, further *)

(** X9. The walk consults the Environment only through the templates of
    the document: under two Environments in which the evaluator gives
    the same answer for each of them, the walk has the same outcome,
    result or error. *)
Theorem interpolateRecursive_depends_on_templates env1 env2 original :
  Forall (fun s => Interpolate env1 s = Interpolate env2 s) (stringsOf original) ->
  interpolateRecursive env1 original = interpolateRecursive env2 original.
Proof.
  induction original as [| | | | |l IH|l IH|l IH] using value_nested_ind;
    try reflexivity.
  - intros [Hs _]%Forall_cons. cbn [interpolateRecursive]. rewrite Hs. reflexivity.
  - rewrite !interpolateRecursive_VSlice. cbn [stringsOf]. intros Hl.
    enough (interpolateElems env1 l = interpolateElems env2 l) as -> by reflexivity.
    induction IH as [|x r Hx _ IHr]; [reflexivity|].
    cbn [List.flat_map] in Hl. apply Forall_app in Hl as [Hhd Htl].
    cbn [interpolateElems]. rewrite (Hx Hhd), (IHr Htl). reflexivity.
  - rewrite !interpolateRecursive_VMapSlice. cbn [stringsOf]. intros Hl.
    enough (interpolateItems env1 l = interpolateItems env2 l) as -> by reflexivity.
    induction IH as [|[k v] r [Hk Hv] _ IHr]; [reflexivity|].
    cbn [List.flat_map fst snd] in *.
    apply Forall_app in Hl as [[Hks Hvs]%Forall_app Htl].
    cbn [interpolateItems fst snd]. rewrite (Hk Hks), (Hv Hvs), (IHr Htl).
    reflexivity.
  - rewrite !interpolateRecursive_VMap. cbn [stringsOf]. intros Hl.
    enough (forall copy, interpolateKeys env1 l copy = interpolateKeys env2 l copy)
      as -> by reflexivity.
    induction IH as [|[k v] r Hv _ IHr]; intros copy; [reflexivity|].
    cbn [List.flat_map fst snd] in *.
    apply Forall_app in Hl as [Hvs Htl].
    rewrite !interpolateKeys_cons, (Hv Hvs).
    destruct (interpolateRecursive env2 v) as [cv|]; [|reflexivity]. cbn.
    apply IHr, Htl.
Qed.

(** A native map with distinct keys whose values the walk returns as
    they are is copied entry by entry. *)
Lemma interpolateKeys_identity env l :
  Forall (fun kv => interpolateRecursive env (snd kv) = Ok (snd kv)) l ->
  forall copy,
    keysDistinctb (map fst copy ++ map fst l) = true ->
    interpolateKeys env l copy = Ok (copy ++ l).
Proof.
  induction 1 as [|[k v] l Hv _ IH]; intros copy Hdist.
  - cbn. rewrite app_nil_r. reflexivity.
  - cbn [fst snd map] in *. rewrite interpolateKeys_cons, Hv. cbn.
    rewrite (SetMapIndex_fresh copy k v)
      by (eapply keysDistinctb_app_cons; exact Hdist).
    rewrite IH; [rewrite <- app_assoc; reflexivity|].
    rewrite map_app. cbn. rewrite <- app_assoc. exact Hdist.
Qed.

(** X10. A document whose templates the evaluator returns as they are,
    for instance because none of them holds a reference, comes out of
    the walk equal to itself, provided its native maps are Go maps, with
    no key twice (and, as every native map of this model, no NaN key). *)
Theorem interpolateRecursive_identity env original :
  Forall (fun s => Interpolate env s = Ok s) (stringsOf original) ->
  distinctKeys original = true ->
  interpolateRecursive env original = Ok original.
Proof.
  induction original as [| | | | |l IH|l IH|l IH] using value_nested_ind;
    try reflexivity.
  - intros [Hs _]%Forall_cons _. cbn [interpolateRecursive]. rewrite Hs. reflexivity.
  - rewrite interpolateRecursive_VSlice. cbn [stringsOf distinctKeys].
    intros Hl Hd.
    enough (interpolateElems env l = Ok l) as -> by reflexivity.
    induction IH as [|x r Hx _ IHr]; [reflexivity|].
    cbn [List.flat_map forallb] in *. apply Forall_app in Hl as [Hhd Htl].
    apply andb_prop in Hd as [Hdx Hdr].
    cbn [interpolateElems]. rewrite (Hx Hhd Hdx), (IHr Htl Hdr). reflexivity.
  - rewrite interpolateRecursive_VMapSlice. cbn [stringsOf distinctKeys].
    intros Hl Hd.
    enough (interpolateItems env l = Ok l) as -> by reflexivity.
    induction IH as [|[k v] r [Hk Hv] _ IHr]; [reflexivity|].
    cbn [List.flat_map forallb fst snd] in *.
    apply Forall_app in Hl as [[Hks Hvs]%Forall_app Htl].
    apply andb_prop in Hd as [[Hdk Hdv]%andb_prop Hdr].
    cbn [interpolateItems fst snd].
    rewrite (Hk Hks Hdk), (Hv Hvs Hdv), (IHr Htl Hdr). reflexivity.
  - rewrite interpolateRecursive_VMap. cbn [stringsOf distinctKeys].
    intros Hl [Hdist Hd]%andb_prop.
    rewrite (interpolateKeys_identity env l); [reflexivity| |exact Hdist].
    clear Hdist. induction IH as [|[k v] r Hv _ IHr]; constructor.
    + cbn [List.flat_map forallb fst snd] in *.
      apply Forall_app in Hl as [Hvs _].
      apply andb_prop in Hd as [Hdv _]. exact (Hv Hvs Hdv).
    + cbn [List.flat_map forallb fst snd] in *.
      apply Forall_app in Hl as [_ Htl]. apply andb_prop in Hd as [_ Hdr].
      apply IHr; assumption.
Qed.

Lemma Forall2_interpolateElems env l l' :
  Forall2 (fun x x' => interpolateRecursive env x = Ok x') l l' ->
  interpolateElems env l = Ok l'.
Proof.
  induction 1 as [|x x' l l' Hx _ IH]; [reflexivity|].
  cbn [interpolateElems]. rewrite Hx, IH. reflexivity.
Qed.

Lemma Forall2_interpolateItems env l l' :
  Forall2 (fun item item' =>
             interpolateRecursive env (Key item) = Ok (Key item') /\
             interpolateRecursive env (Value item) = Ok (Value item')) l l' ->
  interpolateItems env l = Ok l'.
Proof.
  induction 1 as [|[k v] [k' v'] l l' [Hk Hv] _ IH]; [reflexivity|].
  cbn [interpolateItems Key Value fst snd] in *. rewrite Hk, Hv, IH. reflexivity.
Qed.

(** X12. The walk of a sequence succeeds exactly when the walk of each of
    its elements does, and its result is the sequence of their results
    in the same order; likewise the walk of an order-preserving map
    succeeds exactly when the walks of all keys and values do. *)
Theorem interpolateRecursive_elementwise env :
  (forall l l',
      interpolateRecursive env (VSlice l) = Ok (VSlice l') <->
      Forall2 (fun x x' => interpolateRecursive env x = Ok x') l l') /\
  (forall l l',
      interpolateRecursive env (VMapSlice l) = Ok (VMapSlice l') <->
      Forall2 (fun item item' =>
                 interpolateRecursive env (Key item) = Ok (Key item') /\
                 interpolateRecursive env (Value item) = Ok (Value item')) l l').
Proof.
  split; intros l l'.
  - rewrite interpolateRecursive_VSlice. split.
    + destruct (interpolateElems env l) as [r|] eqn:Hl; [|discriminate].
      intros [= <-]. apply interpolateElems_Forall2, Hl.
    + intros ->%Forall2_interpolateElems. reflexivity.
  - rewrite interpolateRecursive_VMapSlice. split.
    + destruct (interpolateItems env l) as [r|] eqn:Hl; [|discriminate].
      intros [= <-]. apply interpolateItems_Forall2, Hl.
    + intros ->%Forall2_interpolateItems. reflexivity.
Qed.

(** X13. When [Parse], with interpolation enabled, returns without error,
    every stage has succeeded and the document returned is the
    normaliser's reading of the marshalled walk: the input decoded as a
    sequence under the Environment of the parser, or else as a map under
    the Environment the env pre-pass left, was walked, marshalled and
    decoded again. *)
Theorem Parse_success_stages p result env' :
  NoInterpolation p = false ->
  Parse p = ((result, None), env') ->
  exists pipeline interpolated b,
    ((exists l, yamlUnmarshalSlice (Pipeline p) = Ok l /\
                pipeline = VSlice l /\ env' = parserEnv p) \/
     (exists ignored,
         yamlUnmarshalSlice (Pipeline p) = Err ignored /\
         parseWithEnv p (parserEnv p) = (env', Ok pipeline))) /\
    interpolate env' pipeline = Ok interpolated /\
    yamlMarshal interpolated = Ok b /\
    UnmarshalAsStringMap b = Ok result.
Proof.
  intros Hno. unfold Parse. rewrite Hno.
  assert (Htail : forall env pipeline,
             parseInterpolated p env pipeline = ((result, None), env') ->
             env' = env /\
             exists interpolated b,
               interpolate env pipeline = Ok interpolated /\
               yamlMarshal interpolated = Ok b /\
               UnmarshalAsStringMap b = Ok result).
  { intros env pipeline. unfold parseInterpolated.
    destruct (interpolate env pipeline) as [interpolated|] eqn:Hw; [|discriminate].
    destruct (yamlMarshal interpolated) as [b|] eqn:Hm; [|discriminate].
    destruct (UnmarshalAsStringMap b) as [r|] eqn:Hb; [|discriminate].
    intros [= <- <-]. split; [reflexivity|]. exists interpolated, b.
    repeat split; assumption. }
  destruct (yamlUnmarshalSlice (Pipeline p)) as [l|ignored].
  - intros [-> (interpolated & b & Hw & Hm & Hn)]%Htail.
    exists (VSlice l), interpolated, b. repeat split; try assumption.
    left. exists l. auto.
  - destruct (parseWithEnv p (parserEnv p)) as [env1 [pipeline|err]];
      [|discriminate].
    intros [-> (interpolated & b & Hw & Hm & Hn)]%Htail.
    exists pipeline, interpolated, b. repeat split; try assumption.
    right. exists ignored. auto.
Qed.



(** X15. [Parse] as a whole changes the Environment only through the env
    pre-pass: a variable that no string-valued entry of the env block of
    the decoded map declares reads after [Parse] as it did before,
    whatever the mode of the parser, the shape of the document and the
    outcome. *)
Theorem Parse_environment_frame p k :
  (forall pipeline item envMap,
      yamlUnmarshalMapSlice (Pipeline p) = Ok pipeline ->
      mapSliceItem "env" pipeline = Some item ->
      Value item = VMapSlice envMap ->
      Forall (fun it => forall tv, it <> (VString k, VString tv)) envMap) ->
  env_Get (snd (Parse p)) k = env_Get (parserEnv p) k.
Proof.
  intros Hframe. unfold Parse. destruct (NoInterpolation p).
  - destruct (UnmarshalAsStringMap (Pipeline p)); reflexivity.
  - destruct (yamlUnmarshalSlice (Pipeline p)) as [l|ignored];
      [rewrite parseInterpolated_env; reflexivity|].
    assert (Hpre : env_Get (fst (parseWithEnv p (parserEnv p))) k =
                   env_Get (parserEnv p) k).
    { unfold parseWithEnv.
      destruct (yamlUnmarshalMapSlice (Pipeline p)) as [pipeline|] eqn:Hdec;
        [|reflexivity].
      destruct (mapSliceItem "env" pipeline) as [item|] eqn:Hfind; [|reflexivity].
      destruct (Value item) as [| | | | | |envMap|] eqn:Hv; try reflexivity.
      pose proof (interpolateEnvBlock_other_keys envMap (parserEnv p) k
                    (Hframe _ _ _ eq_refl Hfind Hv)) as Hk.
      destruct (interpolateEnvBlock envMap (parserEnv p)) as [env1 [err|]];
        exact Hk. }
    destruct (parseWithEnv p (parserEnv p)) as [env1 [pipelineAsMap|err]].
    + rewrite parseInterpolated_env. exact Hpre.
    + exact Hpre.
Qed.




End Properties.

(** ** Worked examples *)

(** C6, as the code has it. With [NoInterpolation] set, [Parse] hands
    the raw input, every byte of it and so every [${...}] in it, to the
    normaliser and returns what the normaliser returns, an error under
    the prefix of [Parse]. The evaluator, the two decoders of the shape
    detection, the marshaller and the contents of the Environment have no
    part in the result, and the Environment is left as it was. What of
    the input the result contains is the normaliser's doing. *)
Theorem Parse_NoInterpolation
    (Canonical : Type) (UnmarshalAsStringMap : string -> res (option Canonical))
    (Interpolate1 Interpolate2 : Environment -> string -> res string)
    (decodeSlice1 decodeSlice2 : string -> res (list value))
    (decodeMap1 decodeMap2 : string -> res (list MapItem))
    (marshal1 marshal2 : value -> res string)
    (osEnviron1 osEnviron2 : Environment) (fmtV1 fmtV2 : value -> string)
    (p p' : PipelineParser) :
  let c1 := Build_Collaborators Interpolate1 decodeSlice1 decodeMap1 marshal1
              Canonical UnmarshalAsStringMap osEnviron1 fmtV1 in
  let c2 := Build_Collaborators Interpolate2 decodeSlice2 decodeMap2 marshal2
              Canonical UnmarshalAsStringMap osEnviron2 fmtV2 in
  NoInterpolation p = true ->
  NoInterpolation p' = true ->
  Filename p' = Filename p ->
  Pipeline p' = Pipeline p ->
  fst (Parse (collab := c1) p) =
    match UnmarshalAsStringMap (Pipeline p) with
    | Ok result => (result, None)
    | Err err => (None, Some (wrapError p err))
    end /\
  snd (Parse (collab := c1) p) = parserEnv (collab := c1) p /\
  fst (Parse (collab := c2) p') = fst (Parse (collab := c1) p).
Proof.
  intros c1 c2 Hno Hno' Hfile Hdoc.
  rewrite (Parse_raw (collab := c1) p Hno).
  rewrite (Parse_raw (collab := c2) p' Hno').
  cbn [fst snd]. repeat split.
  cbn. rewrite Hdoc. unfold wrapError, errPrefix. rewrite Hfile. reflexivity.
Qed.

Lemma Parse_NoInterpolation_witness :
  let raw := {| Env := Some env_FOO; Filename := "steps.yml";
                Pipeline := doc_steps; NoInterpolation := true |} in
  NoInterpolation raw = true /\
  Parse (collab := demo) raw = ((Some "- command: echo ${FOO}", None), env_FOO).
Proof.
  intros raw. split; [reflexivity|].
  pose proof (Parse_NoInterpolation string demoUnmarshalAsStringMap
                demoInterpolate demoInterpolate
                demoUnmarshalSlice demoUnmarshalSlice
                demoUnmarshalMapSlice demoUnmarshalMapSlice
                demoMarshal demoMarshal ∅ ∅ demoFmtV demoFmtV
                raw raw eq_refl eq_refl eq_refl eq_refl) as (Hres & Henv & _).
  apply injective_projections; [exact Hres|exact Henv].
Defined.

(** On [doc_commented], parsed with [NoInterpolation] set, the reference
    [${FOO}] is a literal substring of the input, the parse succeeds, and
    no string of the canonical result contains it: it stood in a
    comment, of which the result has no node. *)
Lemma Parse_NoInterpolation_drops_comment :
  let p := {| Env := Some env_FOO; Filename := "steps.yml";
              Pipeline := doc_commented; NoInterpolation := true |} in
  occursIn "${FOO}" (Pipeline p) = true /\
  Parse (collab := demoComment) p =
    ((Some (CSeq [CString "wait"]), None), env_FOO) /\
  canonContains "${FOO}" (CSeq [CString "wait"]) = false.
Proof. repeat split. Qed.

(** C3. On the map-shaped document [env: not-a-map] the env value is a
    string, and [Parse] fails with the shape error; its message ends in
    the type of the map item, [yaml.MapItem], which it does for every env
    value, and not in [string], the type of the value found. *)
Theorem Parse_env_scalar_names_the_map_item :
  let p := demoParser "" doc_env_scalar ∅ in
  yamlUnmarshalMapSlice (Collaborators := demo) (Pipeline p) =
    Ok [(VString "env", VString "not-a-map")] /\
  typeName (VString "not-a-map") = "string" /\
  Parse (collab := demo) p =
    ((None,
      Some "Failed to parse pipeline: Expected pipeline top-level env block to be a map, got yaml.MapItem"),
     ∅).
Proof. repeat split. Qed.

(** C4. On the sequence-shaped document [- ${UNDEFINED}], parsed under
    the file name [pipeline.yml] with an empty Environment, the evaluator
    rejects the template and [Parse] returns the evaluator's error as it
    is: the message does not start with [Failed to parse pipeline.yml]. *)
Theorem Parse_walk_error_has_no_prefix :
  let p := demoParser "pipeline.yml" doc_undefined ∅ in
  errPrefix p = "Failed to parse pipeline.yml" /\
  Parse (collab := demo) p = ((None, Some "undefined variable UNDEFINED"), ∅) /\
  String.prefix (errPrefix p) "undefined variable UNDEFINED" = false.
Proof. repeat split. Qed.

Lemma interpolateEnvBlock_sequential_witness :
  interpolateEnvBlock (collab := demo)
    [(VString "A", VString "one"); (VString "B", VString "${A}-two")] ∅ =
  (env_Set "B" "one-two" (env_Set "A" "one" ∅), None).
Proof.
  apply (interpolateEnvBlock_sequential (collab := demo)); reflexivity.
Defined.


Lemma Parse_shape_detection_witness :
  let p := demoParser "awesome.yml" doc_garbage ∅ in
  NoInterpolation p = false /\
  Parse (collab := demo) p =
  ((None,
    Some "Failed to parse awesome.yml: found character that cannot start any token"),
   ∅).
Proof.
  intros p. split; [reflexivity|].
  destruct (Parse_shape_detection (collab := demo) p eq_refl) as [_ Hmap].
  destruct (Hmap "yaml: found character that cannot start any token" eq_refl)
    as [_ Hfail].
  exact (Hfail "yaml: found character that cannot start any token" eq_refl).
Defined.

Lemma Parse_is_fail_fast_witness :
  interpolateRecursive (collab := demo) env_FOO
    (VSlice ([VString "${FOO}"] ++ VString "${UNDEFINED}" :: [VString "${LATER}"]))
  = Err "undefined variable UNDEFINED" /\
  (let p := demoParser "pipeline.yml" doc_undefined ∅ in
   snd (fst (Parse (collab := demo) p)) <> None /\
   fst (fst (Parse (collab := demo) p)) = None).
Proof.
  destruct (Parse_is_fail_fast (collab := demo)) as [Hwalk Hnil]. split.
  - apply Hwalk; [|reflexivity].
    constructor; [|constructor]. exists (VString "bar"). reflexivity.
  - intros p.
    assert (Herr : snd (fst (Parse (collab := demo) p)) <> None)
      by (cbn; discriminate).
    split; [exact Herr|exact (Hnil p Herr)].
Defined.

Lemma Parse_env_not_rolled_back_witness :
  let p := demoParser "" doc_env_then_fail ∅ in
  env_Get (parserEnv (collab := demo) p) "FOO" = None /\
  Parse (collab := demo) p =
    ((None, Some "undefined variable UNDEFINED"), env_FOO) /\
  env_Get (snd (Parse (collab := demo) p)) "FOO" = Some "bar".
Proof.
  intros p. split; [reflexivity|].
  destruct (Parse_env_not_rolled_back (collab := demo) p
              "yaml: cannot unmarshal !!map into []interface {}"
              [(VString "env", VMapSlice [(VString "FOO", VString "bar")]);
               (VString "steps", VString "${UNDEFINED}")]
              (VString "env", VMapSlice [(VString "FOO", VString "bar")])
              [(VString "FOO", VString "bar")]
              env_FOO eq_refl eq_refl eq_refl eq_refl eq_refl eq_refl)
    as (Henv & Hwalk & _).
  split.
  - apply Hwalk. reflexivity.
  - rewrite Henv. reflexivity.
Defined.

Lemma interpolateRecursive_keeps_shape_witness :
  let original := VMapSlice items_AB in
  let copy := VMapSlice [(VString "x", VInt 1); (VString "x", VInt 2)] in
  interpolateRecursive (collab := demo) env_AB original = Ok copy /\
  distinctKeys original = true /\
  sameShape original copy = true /\
  exists l', copy = VMapSlice l' /\ List.length l' = List.length items_AB.
Proof.
  intros original copy. split; [reflexivity|]. split; [reflexivity|].
  destruct (interpolateRecursive_keeps_shape (collab := demo)
              env_AB original copy eq_refl eq_refl)
    as (Hshape & _ & _ & Hitems & _).
  split; [exact Hshape|exact (Hitems items_AB eq_refl)].
Defined.

Lemma interpolateRecursive_ordered_map_witness :
  interpolateRecursive (collab := demo) env_KEYVAR
    (VMapSlice [(VString "${KEYVAR}", VString "value")]) =
  Ok (VMapSlice [(VString "name", VString "value")]).
Proof.
  apply (interpolateRecursive_ordered_map (collab := demo) env_KEYVAR);
    reflexivity.
Defined.

(** On the order-preserving map whose only key is the sequence [[${A}]],
    with [A] set to [x], the walk succeeds and the key of the result is
    the sequence [[x]]: a key that is not a string has changed. *)
Lemma interpolateRecursive_changes_composite_key :
  (forall k, VSlice [VString "${A}"] <> VString k) /\
  interpolateRecursive (collab := demo) env_AB (VMapSlice items_seq_key) =
    Ok (VMapSlice [(VSlice [VString "x"], VString "v")]) /\
  VSlice [VString "x"] <> VSlice [VString "${A}"].
Proof. repeat split; discriminate. Qed.

(** Two complete runs of [Parse] on the example codec: the env block of a
    map-shaped document is applied entry by entry before the walk, and a
    sequence-shaped document is walked with the caller's Environment. *)
Example Parse_env_chain :
  Parse (collab := demo) (demoParser "" doc_env_chain ∅) =
  ((Some "{'env': {'A': 'one', 'B': 'one-two', }, 'steps': 'one-two', }", None),
   env_Set "B" "one-two" (env_Set "A" "one" ∅)).
Proof. reflexivity. Qed.

Example Parse_steps :
  Parse (collab := demo) (demoParser "" doc_steps env_FOO) =
  ((Some "[{'command': 'echo bar', }, ]", None), env_FOO).
Proof. reflexivity. Qed.

(** ** Worked examples, further *)

Lemma mapSliceItem_first_match_witness :
  mapSliceItem "env" items_two_env =
  Some (VString "env", VMapSlice [(VString "A", VString "one")]).
Proof.
  apply (mapSliceItem_first_match "env" items_two_env).
  exists [(VString "steps", VString "make"); (VString "Env", VString "upper")],
         [(VString "env", VString "second")].
  repeat split. repeat constructor; discriminate.
Defined.

Lemma parseWithEnv_keeps_document_witness :
  let p := demoParser "" doc_env_then_fail ∅ in
  parseWithEnv (collab := demo) p ∅ =
    (env_FOO,
     Ok (VMapSlice [(VString "env", VMapSlice [(VString "FOO", VString "bar")]);
                    (VString "steps", VString "${UNDEFINED}")])) /\
  exists pipeline,
    yamlUnmarshalMapSlice (Collaborators := demo) (Pipeline p) = Ok pipeline /\
    VMapSlice [(VString "env", VMapSlice [(VString "FOO", VString "bar")]);
               (VString "steps", VString "${UNDEFINED}")] = VMapSlice pipeline.
Proof.
  intros p.
  assert (Hrun : parseWithEnv (collab := demo) p ∅ =
                 (env_FOO,
                  Ok (VMapSlice
                        [(VString "env", VMapSlice [(VString "FOO", VString "bar")]);
                         (VString "steps", VString "${UNDEFINED}")])))
    by reflexivity.
  split; [exact Hrun|].
  destruct (proj1 (parseWithEnv_keeps_document (collab := demo) p ∅ env_FOO)
              _ Hrun) as (pipeline & Hdec & Hv & _).
  exists pipeline. split; [exact Hdec|exact Hv].
Defined.

Lemma parseWithEnv_first_env_entry_witness :
  let p := demoParser "" doc_two_env ∅ in
  yamlUnmarshalMapSlice (Collaborators := demoExtra) (Pipeline p) =
    Ok items_two_env /\
  parseWithEnv (collab := demoExtra) p ∅ =
    (env_Set "A" "one" ∅, Ok (VMapSlice items_two_env)).
Proof.
  intros p. split; [reflexivity|].
  rewrite (parseWithEnv_first_env_entry (collab := demoExtra) p ∅
             [(VString "steps", VString "make"); (VString "Env", VString "upper")]
             (VMapSlice [(VString "A", VString "one")])
             [(VString "env", VString "second")]);
    [reflexivity|reflexivity|repeat constructor; discriminate].
Defined.

Lemma interpolateEnvBlock_stops_at_first_error_witness :
  interpolateEnvBlock (collab := demo)
    ([(VString "A", VString "one")] ++
     (VString "B", VString "${UNDEFINED}") :: [(VString "C", VString "three")]) ∅ =
  (env_Set "A" "one" ∅, Some "undefined variable UNDEFINED").
Proof.
  apply (interpolateEnvBlock_stops_at_first_error (collab := demo)); reflexivity.
Defined.

Lemma interpolateEnvBlock_frame_witness :
  env_Get (fst (interpolateEnvBlock (collab := demo) envMap_twice env_PATH)) "PATH"
  = Some "/bin".
Proof.
  rewrite (interpolateEnvBlock_frame (collab := demo) envMap_twice env_PATH "PATH");
    [reflexivity|].
  repeat (constructor; [intros tv; discriminate|]). constructor.
Defined.

Lemma interpolateEnvBlock_defines_witness :
  interpolateEnvBlock (collab := demo) envMap_twice ∅ = (env_twice, None) /\
  is_Some (env_Get env_twice "A").
Proof.
  assert (Hrun : interpolateEnvBlock (collab := demo) envMap_twice ∅ =
                 (env_twice, None)) by reflexivity.
  split; [exact Hrun|].
  destruct (interpolateEnvBlock_defines (collab := demo) envMap_twice ∅ env_twice
              Hrun) as [_ Hall].
  exact (List.Forall_inv Hall "A" "one" eq_refl).
Defined.

Lemma formatYAMLError_strips_one_prefix_witness :
  String.prefix "yaml: " "yaml: line 2: did not find expected key" = true /\
  "yaml: " +:+ formatYAMLError "yaml: line 2: did not find expected key" =
  "yaml: line 2: did not find expected key".
Proof.
  split; [reflexivity|].
  apply (proj1 formatYAMLError_strips_one_prefix). reflexivity.
Defined.

Lemma Parse_wrapped_error_prefix_witness :
  let p := {| Env := Some env_FOO; Filename := "awesome.yml";
              Pipeline := doc_garbage; NoInterpolation := true |} in
  snd (fst (Parse (collab := demo) p)) =
    Some "Failed to parse awesome.yml: found character that cannot start any token" /\
  String.prefix (errPrefix p)
    "Failed to parse awesome.yml: found character that cannot start any token"
  = true.
Proof.
  intros p. split; [reflexivity|].
  apply (proj1 (proj2 (Parse_wrapped_error_prefix (collab := demo) p)));
    reflexivity.
Defined.

Lemma interpolateRecursive_depends_on_templates_witness :
  let original := VSlice [VMap [(KString "command", VString "echo ${FOO}")]] in
  interpolateRecursive (collab := demo) env_FOO original =
  interpolateRecursive (collab := demo) env_FOO_BAR original.
Proof.
  intros original.
  apply (interpolateRecursive_depends_on_templates (collab := demo)).
  repeat constructor.
Defined.

Lemma interpolateRecursive_identity_witness :
  interpolateRecursive (collab := demo) env_FOO steps_plain = Ok steps_plain.
Proof.
  apply (interpolateRecursive_identity (collab := demo));
    [repeat constructor|reflexivity].
Defined.

Lemma interpolateRecursive_elementwise_witness :
  interpolateRecursive (collab := demo) env_FOO
    (VSlice [VString "${FOO}"; VInt 1]) =
  Ok (VSlice [VString "bar"; VInt 1]).
Proof.
  apply (interpolateRecursive_elementwise (collab := demo) env_FOO).
  repeat constructor.
Defined.

Lemma Parse_success_stages_witness :
  let p := demoParser "" doc_steps env_FOO in
  NoInterpolation p = false /\
  Parse (collab := demo) p =
    ((Some "[{'command': 'echo bar', }, ]", None), env_FOO) /\
  exists pipeline interpolated b,
    ((exists l, yamlUnmarshalSlice (Collaborators := demo) (Pipeline p) = Ok l /\
                pipeline = VSlice l /\ env_FOO = parserEnv (collab := demo) p) \/
     (exists ignored,
         yamlUnmarshalSlice (Collaborators := demo) (Pipeline p) = Err ignored /\
         parseWithEnv (collab := demo) p (parserEnv (collab := demo) p) =
           (env_FOO, Ok pipeline))) /\
    interpolate (collab := demo) env_FOO pipeline = Ok interpolated /\
    yamlMarshal (Collaborators := demo) interpolated = Ok b /\
    UnmarshalAsStringMap (Collaborators := demo) b =
      Ok (Some "[{'command': 'echo bar', }, ]").
Proof.
  intros p. split; [reflexivity|]. split; [reflexivity|].
  apply (Parse_success_stages (collab := demo) p); reflexivity.
Defined.


Lemma Parse_environment_frame_witness :
  let p := demoParser "" doc_env_then_fail env_PATH in
  env_Get (snd (Parse (collab := demo) p)) "PATH" = Some "/bin" /\
  env_Get (snd (Parse (collab := demo) p)) "FOO" = Some "bar".
Proof.
  intros p. split; [|reflexivity].
  rewrite (Parse_environment_frame (collab := demo) p "PATH"); [reflexivity|].
  intros pipeline item envMap Hdec Hfind Hv.
  vm_compute in Hdec. injection Hdec as <-.
  vm_compute in Hfind. injection Hfind as <-.
  vm_compute in Hv. injection Hv as <-.
  constructor; [intros tv; discriminate|constructor].
Defined.
